(** * yunikorn-k8shim: the scheduling context, the application state machine,
      the node registry and the completion handler

    A shallow embedding of [pkg/cache/application.go], [pkg/cache/context.go]
    and [pkg/cache/nodes.go].  Go maps are finite maps ([gmap]), pointers to
    entities held in a registry are the registry entries themselves, and every
    call to a collaborator (the dispatcher, the scheduler-core proxy, the
    launch of a goroutine) is recorded in an effect trace returned next to
    the result. *)

From Stdlib Require Import ZArith.
From stdpp Require Import base option strings list gmap fin_maps.

Open Scope string_scope.
Open Scope list_scope.

(** Go's [error] values that are only logged or passed through are kept as
    their message. *)
Definition error := string.

(** ** The finite state machine library (looplab/fsm)

    [fsm.NewFSM(initial, events, callbacks)] and the two methods the shim
    calls on it, [Can] and [Event].  State and event names are the members of
    the enumerations [St] and [Ev]; [state_name] and [event_name] give the
    text that the library prints in its error messages. *)
Module fsm.
Section Machine.
Context {St Ev Eff : Type} `{!EqDecision St, !EqDecision Ev}.
Variable state_name : St → string.
Variable event_name : Ev → string.

(** [fsm.EventDesc{Name, Src, Dst}] *)
Record EventDesc := { Name : Ev; Src : list St; Dst : St }.

(** The machine keeps its current state and the table it was built from. *)
Record FSM := { current : St; events : list EventDesc }.

(** [fsm.Callbacks]: a callback registered under a bare event name runs
    after the event (it is an after-event callback). *)
Definition Callbacks := Ev → option (list Eff).

(** [NewFSM] fills [f.transitions[eKey{e.Name, src}] = e.Dst] for each
    descriptor in order and each of its sources, so a later descriptor
    overwrites an earlier one with the same key. *)
Definition transitions (f : FSM) (event : Ev) (src : St) : option St :=
  fold_left
    (λ acc e, if bool_decide (Name e = event ∧ src ∈ Src e)
              then Some (Dst e) else acc)
    (events f) None.

Definition NewFSM (initial : St) (evs : list EventDesc) : FSM :=
  {| current := initial; events := evs |}.

(** [f.Current()] *)
Definition Current (f : FSM) : St := current f.

(** [f.Can(event)]: the key [(event, current)] is in the transition map
    (no asynchronous transition is ever pending in this program). *)
Definition Can (f : FSM) (event : Ev) : bool :=
  bool_decide (is_Some (transitions f event (current f))).

Inductive Error :=
| InvalidEventError (event : Ev) (state : St)
| UnknownEventError (event : Ev)
| NoTransitionError (err : option error).

(** [err.Error()] *)
Definition Error_string (e : Error) : string :=
  match e with
  | InvalidEventError event state =>
      "event " +:+ event_name event +:+
      " inappropriate in current state " +:+ state_name state
  | UnknownEventError event =>
      "event " +:+ event_name event +:+ " does not exist"
  | NoTransitionError None => "no transition"
  | NoTransitionError (Some err) => "no transition with error: " +:+ err
  end.

Definition runCallback (cbs : Callbacks) (event : Ev) : list Eff :=
  default [] (cbs event).

(** [f.Event(event)]: look the key up; a missing key is an
    [InvalidEventError] when the event name occurs in the table and an
    [UnknownEventError] otherwise.  When the destination is the current
    state the after-event callbacks run and [NoTransitionError] is
    returned; otherwise the state is switched, the after-event callbacks
    run, and the call returns [nil]. *)
Definition Event (f : FSM) (cbs : Callbacks) (event : Ev)
  : FSM * list Eff * option Error :=
  match transitions f event (current f) with
  | None =>
      if bool_decide (Exists (λ e, Name e = event ∧ Src e ≠ []) (events f))
      then (f, [], Some (InvalidEventError event (current f)))
      else (f, [], Some (UnknownEventError event))
  | Some dst =>
      if decide (current f = dst)
      then (f, runCallback cbs event, Some (NoTransitionError None))
      else ({| current := dst; events := events f |},
            runCallback cbs event, None)
  end.
End Machine.
End fsm.

(** ** Kubernetes objects ([k8s.io/api/core/v1]) *)

Inductive PodPhase := PodPending | PodRunning | PodSucceeded | PodFailed | PodUnknown.

#[global] Instance PodPhase_eq_dec : EqDecision PodPhase.
Proof. solve_decision. Defined.

(** The fields of [v1.Pod] that the shim reads or writes. *)
Record Pod := {
  pod_Name : string;
  pod_Namespace : string;
  pod_UID : string;
  pod_Labels : gmap string string;
  pod_NodeName : string;            (* Spec.NodeName *)
  pod_Phase : PodPhase              (* Status.Phase *)
}.

#[global] Instance Pod_eq_dec : EqDecision Pod.
Proof. solve_decision. Defined.

(** [pod.DeepCopy()]: a new object with the same field values. *)
Definition DeepCopy (pod : Pod) : Pod :=
  {| pod_Name := pod_Name pod; pod_Namespace := pod_Namespace pod;
     pod_UID := pod_UID pod; pod_Labels := pod_Labels pod;
     pod_NodeName := pod_NodeName pod; pod_Phase := pod_Phase pod |}.

(** [assumedPod.Spec.NodeName = node] *)
Definition set_NodeName (pod : Pod) (node : string) : Pod :=
  {| pod_Name := pod_Name pod; pod_Namespace := pod_Namespace pod;
     pod_UID := pod_UID pod; pod_Labels := pod_Labels pod;
     pod_NodeName := node; pod_Phase := pod_Phase pod |}.

(** The fields of [v1.Node] that the shim reads: [Status.Allocatable] is a
    map from resource name to quantity. *)
Record Node := {
  node_Name : string;
  node_UID : string;
  node_Unschedulable : bool;        (* Spec.Unschedulable *)
  node_Allocatable : gmap string Z  (* Status.Allocatable *)
}.

(** ** Events ([pkg/common/events]) *)

(** [events.States().Application] *)
Inductive ApplicationState :=
| New | Submitted | Recovering | Accepted | Running
| Rejected | Completed | Killing | Killed | Failed.

#[global] Instance ApplicationState_eq_dec : EqDecision ApplicationState.
Proof. solve_decision. Defined.

(** [events.ApplicationEventType] *)
Inductive ApplicationEventType :=
| SubmitApplication | RecoverApplication | AcceptApplication
| RunApplication | RejectApplication | CompleteApplication
| FailApplication | KillApplication | KilledApplication.

#[global] Instance ApplicationEventType_eq_dec : EqDecision ApplicationEventType.
Proof. solve_decision. Defined.

Definition ApplicationState_name (s : ApplicationState) : string :=
  match s with
  | New => "New" | Submitted => "Submitted" | Recovering => "Recovering"
  | Accepted => "Accepted" | Running => "Running" | Rejected => "Rejected"
  | Completed => "Completed" | Killing => "Killing" | Killed => "Killed"
  | Failed => "Failed"
  end.

Definition ApplicationEventType_name (e : ApplicationEventType) : string :=
  match e with
  | SubmitApplication => "SubmitApplication"
  | RecoverApplication => "RecoverApplication"
  | AcceptApplication => "AcceptApplication"
  | RunApplication => "RunApplication"
  | RejectApplication => "RejectApplication"
  | CompleteApplication => "CompleteApplication"
  | FailApplication => "FailApplication"
  | KillApplication => "KillApplication"
  | KilledApplication => "KilledApplication"
  end.

(** [events.ApplicationEvent]: [GetApplicationID()] and [GetEvent()]. *)
Record ApplicationEvent := {
  GetApplicationID_ev : string;
  GetEvent : ApplicationEventType
}.

(** [events.States().Node] and the node events [nodes.go] dispatches. *)
Inductive NodeState :=
| NodeNew | NodeRecovering | NodeHealthy | NodeDraining
| NodeUnhealthy | NodeDecommissioned.

#[global] Instance NodeState_eq_dec : EqDecision NodeState.
Proof. solve_decision. Defined.

Inductive SchedulerNodeEventType := RecoverNode | DrainNode | RestoreNode.

(** [CachedSchedulerNodeEvent{NodeID, Event}] *)
Record CachedSchedulerNodeEvent := {
  NodeID : string;
  NodeEvent : SchedulerNodeEventType
}.

(** ** Scheduler-core interface ([si.UpdateRequest]) *)

Record AddApplicationRequest_si := {
  si_ApplicationID : string;
  si_QueueName : string;
  si_PartitionName : string;
  si_User : string;                       (* Ugi.User *)
  si_Tags : gmap string string
}.

Record UpdateNodeInfo := {
  si_NodeID : string;
  si_SchedulableResource : gmap string Z
}.

Record UpdateRequest := {
  NewApplications : list AddApplicationRequest_si;
  UpdatedNodes : list UpdateNodeInfo;
  RmID : string
}.

(** [api.SchedulerAPI]: the answer of the remote peer to [Update]. *)
Record SchedulerAPI := { Update : UpdateRequest → option error }.

(** ** Effects

    What a call does outside the entity it runs on, in program order. *)
Inductive Effect :=
| Dispatch (ev : ApplicationEvent)              (* dispatcher.Dispatch(app event) *)
| DispatchNode (ev : CachedSchedulerNodeEvent)  (* dispatcher.Dispatch(node event) *)
| SchedulerUpdate (req : UpdateRequest)         (* schedulerAPI.Update(&req) *)
| Go_completeFn (appID : string) (pod : Pod).   (* go ch.completeFn() *)

Definition is_SchedulerUpdate (e : Effect) : bool :=
  match e with SchedulerUpdate _ => true | _ => false end.

Definition is_Go_completeFn (e : Effect) : bool :=
  match e with Go_completeFn _ _ => true | _ => false end.

(** [common.DefaultPartition] *)
Definition DefaultPartition : string := "default".

(** Modelled from the spec: the label constants of [pkg/common], which is
    not part of the sources; a Spark driver is a pod labelled
    [role=driver]. *)
Definition SparkLabelRole : string := "role".
Definition SparkLabelRoleDriver : string := "driver".

(** ** Tasks *)

Inductive TaskState :=
| TaskNew | TaskPending | TaskScheduling | TaskAllocated
| TaskBound | TaskCompleted | TaskFailed | TaskRejected.

(** Modelled from the spec: the Task entity of [pkg/cache/task.go], which is
    not part of the sources: its identity, the back-reference to its
    application, the pod descriptor, the assigned node name and the state. *)
Record Task := {
  taskID : string;
  task_applicationID : string;
  task_pod : Pod;
  task_nodeName : string;
  task_state : TaskState
}.

(** Modelled from the spec: [NewTask] of [pkg/cache/task.go]; a task is
    created in state [New] with no node assigned. *)
Definition NewTask (tid appID : string) (pod : Pod) : Task :=
  {| taskID := tid; task_applicationID := appID; task_pod := pod;
     task_nodeName := ""; task_state := TaskNew |}.

(** Modelled from the spec: [Task.setAllocated] of [pkg/cache/task.go]; in
    recovery the task is marked [Allocated] on the pod's node. *)
Definition setAllocated (t : Task) (nodeName : string) : Task :=
  {| taskID := taskID t; task_applicationID := task_applicationID t;
     task_pod := task_pod t; task_nodeName := nodeName;
     task_state := TaskAllocated |}.

(** ** Applications ([pkg/cache/application.go]) *)

(** [CompletionHandler{running, completeFn}]; the closure [completeFn] is
    kept as the application id and the driver pod it captured. *)
Record CompletionHandler := {
  running : bool;
  completeFn : option (string * Pod)
}.

Record Application := {
  applicationID : string;
  queue : string;
  partition : string;
  user : string;
  taskMap : gmap string Task;
  tags : gmap string string;
  sm : fsm.FSM (St := ApplicationState) (Ev := ApplicationEventType);
  ch : CompletionHandler;
  schedulerAPI : SchedulerAPI
}.

Definition set_sm (app : Application) (f : fsm.FSM) : Application :=
  {| applicationID := applicationID app; queue := queue app;
     partition := partition app; user := user app; taskMap := taskMap app;
     tags := tags app; sm := f; ch := ch app;
     schedulerAPI := schedulerAPI app |}.

Definition set_taskMap (app : Application) (m : gmap string Task) : Application :=
  {| applicationID := applicationID app; queue := queue app;
     partition := partition app; user := user app; taskMap := m;
     tags := tags app; sm := sm app; ch := ch app;
     schedulerAPI := schedulerAPI app |}.

Definition set_ch (app : Application) (h : CompletionHandler) : Application :=
  {| applicationID := applicationID app; queue := queue app;
     partition := partition app; user := user app; taskMap := taskMap app;
     tags := tags app; sm := sm app; ch := h;
     schedulerAPI := schedulerAPI app |}.

(** The transition table passed to [fsm.NewFSM] in [NewApplication]. *)
Definition applicationEvents : list (fsm.EventDesc (St := ApplicationState)) :=
  [ {| fsm.Name := SubmitApplication; fsm.Src := [New]; fsm.Dst := Submitted |};
    {| fsm.Name := RecoverApplication; fsm.Src := [New]; fsm.Dst := Recovering |};
    {| fsm.Name := AcceptApplication; fsm.Src := [Submitted; Recovering];
       fsm.Dst := Accepted |};
    {| fsm.Name := RunApplication; fsm.Src := [Accepted; Running];
       fsm.Dst := Running |};
    {| fsm.Name := CompleteApplication; fsm.Src := [Running];
       fsm.Dst := Completed |};
    {| fsm.Name := RejectApplication; fsm.Src := [Submitted];
       fsm.Dst := Rejected |};
    {| fsm.Name := FailApplication;
       fsm.Src := [Submitted; Rejected; Accepted; Running];
       fsm.Dst := Failed |};
    {| fsm.Name := KillApplication; fsm.Src := [Accepted; Running];
       fsm.Dst := Killing |};
    {| fsm.Name := KilledApplication; fsm.Src := [Killing];
       fsm.Dst := Killed |} ].

Definition NewApplication (appID queueName user : string)
    (tags : gmap string string) (scheduler : SchedulerAPI) : Application :=
  {| applicationID := appID;
     queue := queueName;
     partition := DefaultPartition;
     user := user;
     taskMap := ∅;
     tags := tags;
     sm := fsm.NewFSM New applicationEvents;
     ch := {| running := false; completeFn := None |};
     schedulerAPI := scheduler |}.

Definition NewSimpleApplicationEvent (appID : string)
    (eventType : ApplicationEventType) : ApplicationEvent :=
  {| GetApplicationID_ev := appID; GetEvent := eventType |}.

Definition NewFailApplicationEvent (appID : string) : ApplicationEvent :=
  NewSimpleApplicationEvent appID FailApplication.

Definition GetApplicationState (app : Application) : ApplicationState :=
  fsm.Current (sm app).

Definition GetApplicationID (app : Application) : string := applicationID app.

(** [app.GetTask(taskID)]: the task, or an error when it does not exist. *)
Definition GetTask (app : Application) (tid : string) : Task + error :=
  match taskMap app !! tid with
  | Some task => inl task
  | None => inr ("task " +:+ tid +:+ " doesn't exist in application "
                 +:+ applicationID app)
  end.

(** [app.AddTask(task)]: a duplicate task id is skipped. *)
Definition AddTask (app : Application) (task : Task) : Application :=
  match taskMap app !! taskID task with
  | Some _ => app
  | None => set_taskMap app (<[taskID task := task]> (taskMap app))
  end.

(** ** The completion handler *)

(** [ch.start()]: the value receiver reads the flag and launches the
    goroutine; it stores nothing.  The handler it is called on always
    carries a closure. *)
Definition start (h : CompletionHandler) : list Effect :=
  if running h then []
  else match completeFn h with
       | Some (appID, pod) => [Go_completeFn appID pod]
       | None => []
       end.

(** [app.startSparkCompletionHandler(client, pod)] *)
Definition startSparkCompletionHandler (app : Application) (pod : Pod)
  : Application * list Effect :=
  if running (ch app) then (app, [])
  else
    let h := {| running := false;
                completeFn := Some (applicationID app, pod) |} in
    (set_ch app h, start h).

(** [app.startCompletionHandler(client, pod)]: the loop over [pod.Labels]
    finds the one entry whose key is the role label, if there is one. *)
Definition startCompletionHandler (app : Application) (pod : Pod)
  : Application * list Effect :=
  if bool_decide (pod_Labels pod !! SparkLabelRole = Some SparkLabelRoleDriver)
  then startSparkCompletionHandler app pod
  else (app, []).

(** An item received from [podWatch.ResultChan()]: its [Object] is a
    [*v1.Pod] or something else (the type assertion fails). *)
Inductive WatchObject := PodObject (resp : Pod) | OtherObject.

(** How a run of [completeFn] ends. *)
Inductive HandlerExit :=
| WatchFailed        (* Watch returned an error: return *)
| DriverSucceeded    (* dispatched CompleteApplication: return *)
| ChannelClosed      (* the range loop ended: return *)
| Panicked.          (* nil dereference after the failed type assertion *)

#[global] Instance HandlerExit_eq_dec : EqDecision HandlerExit.
Proof. solve_decision. Defined.

(** The driver pod has succeeded: the condition tested in the loop. *)
Definition driverSucceeded (pod resp : Pod) : Prop :=
  pod_Phase resp = PodSucceeded ∧ pod_UID resp = pod_UID pod.

#[global] Instance driverSucceeded_dec pod resp : Decision (driverSucceeded pod resp).
Proof. unfold driverSucceeded. apply _. Defined.

(** [for targetPod := range podWatch.ResultChan() { ... }]; the list is
    what the channel delivers before it is closed. *)
Fixpoint watchLoop (appID : string) (pod : Pod) (resultChan : list WatchObject)
  : HandlerExit * list Effect :=
  match resultChan with
  | [] => (ChannelClosed, [])
  | OtherObject :: _ => (Panicked, [])
  | PodObject resp :: rest =>
      if bool_decide (driverSucceeded pod resp)
      then (DriverSucceeded,
            [Dispatch (NewSimpleApplicationEvent appID CompleteApplication)])
      else watchLoop appID pod rest
  end.

(** The body of [completeFn]; [watch] is the result of
    [Pods(pod.Namespace).Watch(...)]. *)
Definition run_completeFn (appID : string) (pod : Pod)
    (watch : error + list WatchObject) : HandlerExit * list Effect :=
  match watch with
  | inl _ => (WatchFailed, [])
  | inr resultChan => watchLoop appID pod resultChan
  end.

(** ** The orchestrator cache ([pkg/cache/external]) *)
Module external.

(** Modelled from the spec: the [SchedulerCache] of [pkg/cache/external],
    which is not part of the sources: a mirror of the orchestrator's nodes
    and pods, and the record of assumed pods, each kept with its [allBound]
    flag.  Pods are keyed by their UID. *)
Record SchedulerCache := {
  nodesMap : gmap string Node;
  podsMap : gmap string Pod;
  assumedPods : gmap string (Pod * bool)
}.

Definition set_assumedPods (c : SchedulerCache) (m : gmap string (Pod * bool))
  : SchedulerCache :=
  {| nodesMap := nodesMap c; podsMap := podsMap c; assumedPods := m |}.

(** Modelled from the spec: [GetPod] and [GetNode] of [pkg/cache/external]
    look a pod or a node up in the mirror. *)
Definition GetPod (c : SchedulerCache) (name : string) : option Pod :=
  podsMap c !! name.

Definition GetNode (c : SchedulerCache) (name : string) : option Node :=
  nodesMap c !! name.

(** Modelled from the spec: [AssumePod] of [pkg/cache/external] records the
    assumed pod in the cache with the flag [allBound]. *)
Definition AssumePod (c : SchedulerCache) (pod : Pod) (allBound : bool)
  : SchedulerCache * option error :=
  (set_assumedPods c (<[pod_UID pod := (pod, allBound)]> (assumedPods c)), None).

(** Modelled from the spec: [ForgetPod] of [pkg/cache/external] removes the
    assumed pod from the cache; a pod that is not assumed is not an error. *)
Definition ForgetPod (c : SchedulerCache) (pod : Pod)
  : SchedulerCache * option error :=
  (set_assumedPods c (delete (pod_UID pod) (assumedPods c)), None).

End external.

(** ** Resources and requests ([pkg/common]) *)
Module common.

(** [si.Resource]: an integer per resource kind. *)
Abbreviation Resource := (gmap string Z).

(** Modelled from the spec: [GetNodeResource] of [pkg/common], which is not
    part of the sources; the resource vector of a node. *)
Definition GetNodeResource (n : Node) : Resource := node_Allocatable n.

(** Modelled from the spec: [Equals] of [pkg/common], which is not part of
    the sources; a component-wise compare of two resource vectors, over the
    resource kinds of either. *)
Definition Equals (left right : Resource) : bool :=
  bool_decide (set_Forall (λ k, left !! k = right !! k)
                          (dom left ∪ dom right)).

(** Modelled from the spec: [CreateFrom] and
    [CreateUpdateRequestForUpdatedNode] of [pkg/common], which are not part
    of the sources; the request reports the node under [UpdatedNodes]. *)
Definition CreateFrom (n : Node) : UpdateNodeInfo :=
  {| si_NodeID := node_Name n; si_SchedulableResource := GetNodeResource n |}.

Definition CreateUpdateRequestForUpdatedNode (rmID : string)
    (node : UpdateNodeInfo) : UpdateRequest :=
  {| NewApplications := []; UpdatedNodes := [node]; RmID := rmID |}.

End common.

Section Shim.
(** [conf.GetSchedulerConf().ClusterID] *)
Variable ClusterID : string.

(** The request built by the submit and the recover callbacks. *)
Definition newApplicationsRequest (app : Application) : UpdateRequest :=
  {| NewApplications :=
       [ {| si_ApplicationID := applicationID app;
            si_QueueName := queue app;
            si_PartitionName := partition app;
            si_User := user app;
            si_Tags := tags app |} ];
     UpdatedNodes := [];
     RmID := ClusterID |}.

Definition handleSubmitApplicationEvent (app : Application) : list Effect :=
  let req := newApplicationsRequest app in
  SchedulerUpdate req ::
  match Update (schedulerAPI app) req with
  | Some _ => [Dispatch (NewFailApplicationEvent (applicationID app))]
  | None => []
  end.

Definition handleRecoverApplicationEvent (app : Application) : list Effect :=
  let req := newApplicationsRequest app in
  SchedulerUpdate req ::
  match Update (schedulerAPI app) req with
  | Some _ => [Dispatch (NewFailApplicationEvent (applicationID app))]
  | None => []
  end.

(** for rejected apps, we directly move them to failed state *)
Definition handleRejectApplicationEvent (app : Application) : list Effect :=
  [Dispatch (NewFailApplicationEvent (applicationID app))].

Definition handleCompleteApplicationEvent (app : Application) : list Effect := [].

(** The [fsm.Callbacks] map of [NewApplication]. *)
Definition applicationCallbacks (app : Application)
  : fsm.Callbacks (Ev := ApplicationEventType) (Eff := Effect) :=
  λ event,
    match event with
    | SubmitApplication => Some (handleSubmitApplicationEvent app)
    | RecoverApplication => Some (handleRecoverApplicationEvent app)
    | RejectApplication => Some (handleRejectApplicationEvent app)
    | CompleteApplication => Some (handleCompleteApplicationEvent app)
    | _ => None
    end.

Definition AppError_string :=
  fsm.Error_string ApplicationState_name ApplicationEventType_name.

(** [app.handle(ev)]: fire the event; the library's same-state error is not
    an error for the caller. *)
Definition handle (app : Application) (ev : ApplicationEvent)
  : Application * list Effect * option fsm.Error :=
  let '(f, effs, err) :=
    fsm.Event (sm app) (applicationCallbacks app) (GetEvent ev) in
  match err with
  | Some e =>
      if decide (AppError_string e = "no transition")
      then (set_sm app f, effs, None)
      else (set_sm app f, effs, Some e)
  | None => (set_sm app f, effs, None)
  end.

Definition canHandle (app : Application) (ev : ApplicationEvent) : bool :=
  fsm.Can (sm app) (GetEvent ev).

(** ** The scheduling context ([pkg/cache/context.go]) *)

(** The volume binder: [AssumePodVolumes(pod, node)] answers
    [(allBound, err)]. *)
Record Binder := { AssumePodVolumes : Pod → string → bool * option error }.

(** [apiProvider.GetAPIs()]: the scheduler-core proxy and the volume
    binder, which is [nil] in unit tests. *)
Record APIs := {
  SchedulerAPI_of : SchedulerAPI;
  VolumeBinder : option Binder
}.

(** Scheduler nodes ([pkg/cache/node.go], not part of the sources).
    Modelled from the spec: a node has a name, a uid, a total resource
    vector, a schedulable flag and a state. *)
Record SchedulerNode := {
  name : string;
  uid : string;
  capacity : common.Resource;
  schedulable : bool;
  getNodeState : NodeState
}.

(** [schedulerNodes]; its [cache] field is the context's scheduler cache
    and is not read by the functions below. *)
Record schedulerNodes := {
  proxy : SchedulerAPI;
  nodesMap : gmap string SchedulerNode
}.

Record Context := {
  applications : gmap string Application;
  nodes : schedulerNodes;
  schedulerCache : external.SchedulerCache;
  apiProvider : APIs
}.

Definition set_applications (ctx : Context) (m : gmap string Application)
  : Context :=
  {| applications := m; nodes := nodes ctx;
     schedulerCache := schedulerCache ctx; apiProvider := apiProvider ctx |}.

Definition set_schedulerCache (ctx : Context) (c : external.SchedulerCache)
  : Context :=
  {| applications := applications ctx; nodes := nodes ctx;
     schedulerCache := c; apiProvider := apiProvider ctx |}.

(** [ctx.AssumePod(name, node)] *)
Definition AssumePod (ctx : Context) (name node : string)
  : Context * option error :=
  match external.GetPod (schedulerCache ctx) name with
  | Some pod =>
      match external.GetNode (schedulerCache ctx) node with
      | Some targetNode =>
          let assumedPod := DeepCopy pod in
          let '(allBound, err) :=
            match VolumeBinder (apiProvider ctx) with
            | Some binder => AssumePodVolumes binder pod node
            | None => (true, None)
            end in
          match err with
          | Some e => (ctx, Some e)
          | None =>
              let assumedPod := set_NodeName assumedPod node in
              let '(c, res) :=
                external.AssumePod (schedulerCache ctx) assumedPod allBound in
              (set_schedulerCache ctx c, res)
          end
      | None => (ctx, None)
      end
  | None => (ctx, None)
  end.

(** [ctx.ForgetPod(name)] *)
Definition ForgetPod (ctx : Context) (name : string)
  : Context * option error :=
  match external.GetPod (schedulerCache ctx) name with
  | Some pod =>
      let '(c, res) := external.ForgetPod (schedulerCache ctx) pod in
      (set_schedulerCache ctx c, res)
  | None => (ctx, None)
  end.

(** [AddApplicationRequest{Metadata, Recovery}] *)
Record AddApplicationRequest := {
  req_ApplicationID : string;
  req_QueueName : string;
  req_User : string;
  req_Tags : gmap string string;
  req_Recovery : bool
}.

(** [AddTaskRequest{Metadata, Recovery}] *)
Record AddTaskRequest := {
  treq_ApplicationID : string;
  treq_TaskID : string;
  treq_Pod : Pod;
  treq_Recovery : bool
}.

(** [ctx.AddApplication(request)] *)
Definition AddApplication (ctx : Context) (request : AddApplicationRequest)
  : Context * Application * list Effect :=
  let app := NewApplication (req_ApplicationID request)
               (req_QueueName request) (req_User request) (req_Tags request)
               (SchedulerAPI_of (apiProvider ctx)) in
  let ctx := set_applications ctx
               (<[applicationID app := app]> (applications ctx)) in
  let effs :=
    if req_Recovery request then
      if decide (GetApplicationState app = New)
      then [Dispatch (NewSimpleApplicationEvent (applicationID app)
                        RecoverApplication)]
      else []
    else [] in
  (ctx, app, effs).

(** [ctx.GetApplication(appID)] *)
Definition GetApplication (ctx : Context) (appID : string)
  : option Application :=
  applications ctx !! appID.

(** [ctx.AddTask(request)]: the application is updated in place. *)
Definition Context_AddTask (ctx : Context) (request : AddTaskRequest)
  : Context :=
  match GetApplication ctx (treq_ApplicationID request) with
  | Some app =>
      match GetTask app (treq_TaskID request) with
      | inr _ =>
          let task := NewTask (treq_TaskID request) (applicationID app)
                        (treq_Pod request) in
          let task :=
            if treq_Recovery request
            then setAllocated task (pod_NodeName (treq_Pod request))
            else task in
          set_applications ctx
            (<[treq_ApplicationID request := AddTask app task]>
               (applications ctx))
      | inl _ => ctx
      end
  | None => ctx
  end.

(** The function returned by [ctx.ApplicationEventHandler()], applied to an
    application event. *)
Definition ApplicationEventHandler (ctx : Context) (event : ApplicationEvent)
  : Context * list Effect :=
  match GetApplication ctx (GetApplicationID_ev event) with
  | None => (ctx, [])
  | Some app =>
      if canHandle app event
      then
        let '(app', effs, _) := handle app event in
        (set_applications ctx
           (<[GetApplicationID_ev event := app']> (applications ctx)), effs)
      else (ctx, [])
  end.

(** Modelled from the spec: the consumer of [pkg/dispatcher], which is not
    part of the sources; it delivers the queued application events in FIFO
    order to the handler registered for them. *)
Fixpoint deliver (ctx : Context) (queue : list ApplicationEvent)
  : Context * list Effect :=
  match queue with
  | [] => (ctx, [])
  | event :: rest =>
      let '(ctx1, effs1) := ApplicationEventHandler ctx event in
      let '(ctx2, effs2) := deliver ctx1 rest in
      (ctx2, effs1 ++ effs2)
  end.

(** ** The node registry ([pkg/cache/nodes.go]) *)

Definition equals (n1 n2 : Node) : bool :=
  let n1Resource := common.GetNodeResource n1 in
  let n2Resource := common.GetNodeResource n2 in
  common.Equals n1Resource n2Resource.

Definition drainNode (nc : schedulerNodes) (node : Node) : list Effect :=
  match nodesMap nc !! node_Name node with
  | Some node =>
      if decide (getNodeState node = NodeHealthy)
      then [DispatchNode {| NodeID := name node; NodeEvent := DrainNode |}]
      else []
  | None => []
  end.

Definition restoreNode (nc : schedulerNodes) (node : Node) : list Effect :=
  match nodesMap nc !! node_Name node with
  | Some node =>
      if decide (getNodeState node = NodeDraining)
      then [DispatchNode {| NodeID := name node; NodeEvent := RestoreNode |}]
      else []
  | None => []
  end.

(** [nc.updateNode(oldNode, newNode)]; an error of [proxy.Update] is only
    logged. *)
Definition updateNode (nc : schedulerNodes) (oldNode newNode : Node)
  : list Effect :=
  (if negb (node_Unschedulable oldNode) && node_Unschedulable newNode
   then drainNode nc newNode
   else if node_Unschedulable oldNode && negb (node_Unschedulable newNode)
        then restoreNode nc newNode
        else []) ++
  (if equals oldNode newNode then []
   else
     let node := common.CreateFrom newNode in
     let request := common.CreateUpdateRequestForUpdatedNode ClusterID node in
     [SchedulerUpdate request]).

End Shim.

(** ** The transition table as the specification words it *)

(** The [From] column of the application table. *)
Definition table_From (verb : ApplicationEventType) : list ApplicationState :=
  match verb with
  | SubmitApplication => [New]
  | RecoverApplication => [New]
  | AcceptApplication => [Submitted; Recovering]
  | RunApplication => [Accepted; Running]
  | CompleteApplication => [Running]
  | RejectApplication => [Submitted]
  | FailApplication => [Submitted; Rejected; Accepted; Running]
  | KillApplication => [Accepted; Running]
  | KilledApplication => [Killing]
  end.

(** The [To] column of the application table. *)
Definition table_To (verb : ApplicationEventType) : ApplicationState :=
  match verb with
  | SubmitApplication => Submitted
  | RecoverApplication => Recovering
  | AcceptApplication => Accepted
  | RunApplication => Running
  | CompleteApplication => Completed
  | RejectApplication => Rejected
  | FailApplication => Failed
  | KillApplication => Killing
  | KilledApplication => Killed
  end.

(** Every application is built by [NewApplication], and no operation
    replaces the table of its machine. *)
Definition builtByNewApplication (app : Application) : Prop :=
  fsm.events (sm app) = applicationEvents.

(** An item of the watch channel that is a pod update other than the
    success of the driver. *)
Definition otherPodUpdate (pod : Pod) (o : WatchObject) : Prop :=
  ∃ resp, o = PodObject resp ∧ ¬ driverSucceeded pod resp.

(** The scheduler-core requests among the effects of a call. *)
Definition updatesSent (effs : list Effect) : list Effect :=
  filter (λ e, is_SchedulerUpdate e = true) effs.

(** The goroutines launched among the effects of a call. *)
Definition watchersLaunched (effs : list Effect) : list Effect :=
  filter (λ e, is_Go_completeFn e = true) effs.

(** ** Sample values *)
Module Samples.

Definition clusterID : string := "test-cluster".

Definition api : SchedulerAPI := {| Update := λ _, None |}.

Definition apis : APIs := {| SchedulerAPI_of := api; VolumeBinder := None |}.

Definition pod_t1 : Pod :=
  {| pod_Name := "t1"; pod_Namespace := "default"; pod_UID := "t1";
     pod_Labels := ∅; pod_NodeName := ""; pod_Phase := PodPending |}.

Definition driver : Pod :=
  {| pod_Name := "driver"; pod_Namespace := "default"; pod_UID := "d1";
     pod_Labels := {[ SparkLabelRole := SparkLabelRoleDriver ]};
     pod_NodeName := "n1"; pod_Phase := PodRunning |}.

Definition node_n1 : Node :=
  {| node_Name := "n1"; node_UID := "n1"; node_Unschedulable := false;
     node_Allocatable := {[ "cpu" := 4000%Z; "memory" := 8192%Z ]} |}.

Definition node_n1_grown : Node :=
  {| node_Name := "n1"; node_UID := "n1"; node_Unschedulable := false;
     node_Allocatable := {[ "cpu" := 8000%Z; "memory" := 8192%Z ]} |}.

Definition noNodes : schedulerNodes := {| proxy := api; nodesMap := ∅ |}.

(** An application in a given state. *)
Definition appIn (s : ApplicationState) : Application :=
  set_sm (NewApplication "app-02" "root.unknown" "alice" ∅ api)
         {| fsm.current := s; fsm.events := applicationEvents |}.

Definition task_t1 : Task := NewTask "t1" "app-02" pod_t1.

(** A context with an empty orchestrator cache. *)
Definition emptyContext : Context :=
  {| applications := ∅; nodes := noNodes;
     schedulerCache := {| external.nodesMap := ∅; external.podsMap := ∅;
                          external.assumedPods := ∅ |};
     apiProvider := apis |}.

(** A context whose cache mirrors pod [t1] and node [n1]. *)
Definition mirrored : Context :=
  {| applications := ∅; nodes := noNodes;
     schedulerCache :=
       {| external.nodesMap := {[ "n1" := node_n1 ]};
          external.podsMap := {[ "t1" := pod_t1 ]};
          external.assumedPods := ∅ |};
     apiProvider := apis |}.

(** The same context after [t1] was assumed on [n1]. *)
Definition assumed : Context := (AssumePod mirrored "t1" "n1").1.

(** A context holding application [app-02] in state [Submitted]. *)
Definition submitted : Context :=
  set_applications emptyContext {[ "app-02" := appIn Submitted ]}.

(** A context holding application [app-02] in state [Running] with task
    [t1]. *)
Definition running_with_task : Context :=
  set_applications emptyContext
    {[ "app-02" := AddTask (appIn Running) task_t1 ]}.

(** The driver pod reported as succeeded. *)
Definition driver_done : Pod :=
  {| pod_Name := "driver"; pod_Namespace := "default"; pod_UID := "d1";
     pod_Labels := {[ SparkLabelRole := SparkLabelRoleDriver ]};
     pod_NodeName := "n1"; pod_Phase := PodSucceeded |}.

Definition addTask_t1 : AddTaskRequest :=
  {| treq_ApplicationID := "app-02"; treq_TaskID := "t1";
     treq_Pod := pod_t1; treq_Recovery := false |}.

Definition addApp02 : AddApplicationRequest :=
  {| req_ApplicationID := "app-02"; req_QueueName := "root.default";
     req_User := "alice"; req_Tags := ∅; req_Recovery := false |}.

End Samples.

(** The application registered under [appID] is rejected or failed. *)
Definition rejectedOrFailed (appID : string) (ctx : Context) : Prop :=
  ∃ app, GetApplication ctx appID = Some app ∧
         builtByNewApplication app ∧
         (GetApplicationState app = Rejected ∨ GetApplicationState app = Failed).

(** Closed decidable goals are settled by evaluation. *)
Ltac by_decide := apply (bool_decide_unpack _); vm_compute; exact I.

(** * The rest of the application, the context and the node registry *)

#[global] Instance TaskState_eq_dec : EqDecision TaskState.
Proof. solve_decision. Defined.

(** ** Task lists of an application ([application.go]) *)

(** The loop of [app.getTasks(state)] over [app.taskMap]: the entries whose
    task is in the given state.  Go leaves the order of a map iteration
    open; the order here is that of [map_to_list]. *)
Definition getTaskEntries (app : Application) (state : TaskState)
  : list (string * Task) :=
  if bool_decide (0 < size (taskMap app))
  then filter (λ kt, task_state kt.2 = state) (map_to_list (taskMap app))
  else [].

(** [app.getTasks(state)] *)
Definition getTasks (app : Application) (state : TaskState) : list Task :=
  (getTaskEntries app state).*2.

Definition GetPendingTasks (app : Application) : list Task :=
  getTasks app TaskPending.

Definition GetNewTasks (app : Application) : list Task :=
  getTasks app TaskNew.

Definition GetAllocatedTasks (app : Application) : list Task :=
  getTasks app TaskAllocated.

Definition GetQueue (app : Application) : string := queue app.

Definition NewSubmitApplicationEvent (appID : string) : ApplicationEvent :=
  NewSimpleApplicationEvent appID SubmitApplication.

Definition NewRunApplicationEvent (appID : string) : ApplicationEvent :=
  NewSimpleApplicationEvent appID RunApplication.

Section Scheduling.
Variable ClusterID : string.

(** The two methods of [Task] that [Schedule] calls; [pkg/cache/task.go] is
    not part of the sources, so they are parameters: the sanity check, and
    [task.handle] applied to the [InitTask] event, which answers the task
    as it left it, what it did, and its error. *)
Variable sanityCheckBeforeScheduling : Task → option error.
Variable handleInitTask : Task → Task * list Effect * option error.

(** One turn of the loop over the new tasks in [Schedule]; the task behind
    the pointer is the entry of the task map it was read from. *)
Definition initTask (acc : gmap string Task * list Effect)
    (entry : string * Task) : gmap string Task * list Effect :=
  match sanityCheckBeforeScheduling entry.2 with
  | None =>
      let '(task, effs, _) := handleInitTask entry.2 in
      (<[entry.1 := task]> acc.1, acc.2 ++ effs)
  | Some _ => acc
  end.

(** [app.Schedule()] *)
Definition Schedule (app : Application) : Application * list Effect :=
  match GetApplicationState app with
  | New =>
      let ev := NewSubmitApplicationEvent (GetApplicationID app) in
      let '(app, effs, _) := handle ClusterID app ev in (app, effs)
  | Accepted =>
      let ev := NewRunApplicationEvent (GetApplicationID app) in
      let '(app, effs, _) := handle ClusterID app ev in (app, effs)
  | Running =>
      if bool_decide (0 < length (GetNewTasks app))
      then
        let '(tasks, effs) :=
          fold_left initTask (getTaskEntries app TaskNew) (taskMap app, []) in
        (set_taskMap app tasks, effs)
      else (app, [])
  | _ => (app, [])
  end.
End Scheduling.

(** ** More of the context ([context.go]) *)

(** [ctx.UpdateApplication(app)] *)
Definition UpdateApplication (ctx : Context) (app : Application) : Context :=
  set_applications ctx (<[applicationID app := app]> (applications ctx)).

(** [ctx.getTask(appID, taskID)] *)
Definition getTask (ctx : Context) (appID taskID : string) : Task + error :=
  let notFound := "application " +:+ appID +:+ " is not found in context" in
  match applications ctx !! appID with
  | Some app =>
      match GetTask app taskID with
      | inl task => inl task
      | inr _ => inr notFound
      end
  | None => inr notFound
  end.

(** The test [filter != nil && !filter(app)] of [SelectApplications],
    negated: the application is kept. *)
Definition selected (flt : option (Application → bool)) (app : Application)
  : Prop :=
  match flt with
  | Some f => f app = true
  | None => True
  end.

#[global] Instance selected_dec flt app : Decision (selected flt app).
Proof. destruct flt; simpl; apply _. Defined.

(** [ctx.SelectApplications(filter)]; the order is that of [map_to_list],
    Go leaves it open. *)
Definition SelectApplications (ctx : Context)
    (flt : option (Application → bool)) : list Application :=
  filter (selected flt) (map_to_list (applications ctx)).*2.

(** ** The lock of the context

    [sync.RWMutex] as seen by one goroutine: an operation answers the
    mutex it leaves, or nothing when the call does not return (the mutex is
    held in a way that excludes it). *)
Module sync.

Inductive RWMutex :=
| Unlocked
| Locked                      (* held by a writer *)
| RLocked (others : nat).     (* held by [S others] readers *)

Definition Lock (m : RWMutex) : option RWMutex :=
  match m with Unlocked => Some Locked | _ => None end.

Definition Unlock (m : RWMutex) : option RWMutex :=
  match m with Locked => Some Unlocked | _ => None end.

Definition RLock (m : RWMutex) : option RWMutex :=
  match m with
  | Unlocked => Some (RLocked 0)
  | RLocked n => Some (RLocked (S n))
  | Locked => None
  end.

Definition RUnlock (m : RWMutex) : option RWMutex :=
  match m with
  | RLocked 0 => Some Unlocked
  | RLocked (S n) => Some (RLocked n)
  | _ => None
  end.

End sync.

(** The methods of the context with their use of [ctx.lock] written out. *)
Module locking.

(** [ctx.GetApplication(appID)]: [RLock], [defer RUnlock]. *)
Definition GetApplication (l : sync.RWMutex) (ctx : Context) (appID : string)
  : option (sync.RWMutex * option Application) :=
  l ← sync.RLock l;
  let r := GetApplication ctx appID in
  l ← sync.RUnlock l;
  Some (l, r).

(** [ctx.UpdateApplication(app)]: [Lock], [defer Unlock]. *)
Definition UpdateApplication (l : sync.RWMutex) (ctx : Context)
    (app : Application) : option (sync.RWMutex * Context) :=
  l ← sync.Lock l;
  let r := UpdateApplication ctx app in
  l ← sync.Unlock l;
  Some (l, r).

(** [ctx.AddApplication(request)]: [Lock], [defer Unlock]. *)
Definition AddApplication (l : sync.RWMutex) (ctx : Context)
    (request : AddApplicationRequest)
  : option (sync.RWMutex * (Context * Application * list Effect)) :=
  l ← sync.Lock l;
  let r := AddApplication ctx request in
  l ← sync.Unlock l;
  Some (l, r).

(** [ctx.AddTask(request)] takes the lock only inside [GetApplication]. *)
Definition AddTask (l : sync.RWMutex) (ctx : Context) (request : AddTaskRequest)
  : option (sync.RWMutex * Context) :=
  '(l, _) ← GetApplication l ctx (treq_ApplicationID request);
  Some (l, Context_AddTask ctx request).

(** [ctx.NotifyApplicationComplete(appID)]: [Lock], [defer Unlock], and
    [ctx.GetApplication] called with the lock held. *)
Definition NotifyApplicationComplete (l : sync.RWMutex) (ctx : Context)
    (appID : string) : option (sync.RWMutex * list Effect) :=
  l ← sync.Lock l;
  '(l, found) ← GetApplication l ctx appID;
  let effs :=
    match found with
    | Some _ => [Dispatch (NewSimpleApplicationEvent appID CompleteApplication)]
    | None => []
    end in
  l ← sync.Unlock l;
  Some (l, effs).

End locking.

(** ** More of the node registry ([nodes.go]) *)

Definition set_nodesMap (nc : schedulerNodes) (m : gmap string SchedulerNode)
  : schedulerNodes :=
  {| proxy := proxy nc; nodesMap := m |}.

(** [nc.getNode(name)] *)
Definition getNode (nc : schedulerNodes) (nodeName : string)
  : option SchedulerNode :=
  nodesMap nc !! nodeName.

Section Nodes.
(** [newSchedulerNode] of [pkg/cache/node.go] and
    [common.CreateUpdateRequestForDeleteNode] of [pkg/common] are not part
    of the sources; they are parameters. *)
Variable newSchedulerNode :
  string → string → common.Resource → SchedulerAPI → bool → SchedulerNode.
Variable CreateUpdateRequestForDeleteNode : UpdateNodeInfo → UpdateRequest.

(** [nc.addAndReportNode(node, reportNode)] *)
Definition addAndReportNode (nc : schedulerNodes) (node : Node)
    (reportNode : bool) : schedulerNodes * list Effect :=
  let nc :=
    match nodesMap nc !! node_Name node with
    | Some _ => nc
    | None =>
        let newNode :=
          newSchedulerNode (node_Name node) (node_UID node)
            (common.GetNodeResource node) (proxy nc)
            (negb (node_Unschedulable node)) in
        set_nodesMap nc (<[node_Name node := newNode]> (nodesMap nc))
    end in
  let effs :=
    if reportNode then
      match nodesMap nc !! node_Name node with
      | Some node =>
          if decide (getNodeState node = NodeNew)
          then [DispatchNode {| NodeID := name node; NodeEvent := RecoverNode |}]
          else []
      | None => []
      end
    else [] in
  (nc, effs).

(** [nc.addNode(node)] *)
Definition addNode (nc : schedulerNodes) (node : Node)
  : schedulerNodes * list Effect :=
  addAndReportNode nc node true.

(** [nc.deleteNode(node)]; an error of [proxy.Update] is only logged. *)
Definition deleteNode (nc : schedulerNodes) (node : Node)
  : schedulerNodes * list Effect :=
  let n := common.CreateFrom node in
  let request := CreateUpdateRequestForDeleteNode n in
  (nc, [SchedulerUpdate request]).
End Nodes.

(** The node events among the effects of a call. *)
Definition nodeEvents (effs : list Effect) : list CachedSchedulerNodeEvent :=
  omap (λ e, match e with DispatchNode ev => Some ev | _ => None end) effs.

(** ** The generic application management service *)
Module general.
Section Service.
(** [utils.GetApplicationIdFromPod], [utils.GetQueueNameFromPod] and the
    pod's [Spec.ServiceAccountName] are read through parameters:
    [pkg/common/utils] is not part of the sources. *)
Variable GetApplicationIdFromPod : Pod → string + error.
Variable GetQueueNameFromPod : Pod → string.
Variable ServiceAccountName : Pod → string.

(** The tags of a new application: the pod's namespace, [default] when it
    is empty. *)
Definition namespaceTags (pod : Pod) : gmap string string :=
  if decide (pod_Namespace pod = "")
  then {[ "namespace" := "default" ]}
  else {[ "namespace" := pod_Namespace pod ]}.

(** [os.addApplicationInternal(pod, recovery)], with the context as the
    [amProtocol]; the application it returns is the registry entry. *)
Definition addApplicationInternal (ctx : Context) (pod : Pod) (recovery : bool)
  : Context * list Effect * option Application * bool :=
  match GetApplicationIdFromPod pod with
  | inr _ => (ctx, [], None, false)
  | inl appId =>
      let '(ctx, app, effs, added) :=
        match GetApplication ctx appId with
        | Some app => (ctx, app, [], false)
        | None =>
            let '(ctx, app, effs) :=
              AddApplication ctx
                {| req_ApplicationID := appId;
                   req_QueueName := GetQueueNameFromPod pod;
                   req_User := ServiceAccountName pod;
                   req_Tags := namespaceTags pod;
                   req_Recovery := recovery |} in
            (ctx, app, effs, true)
        end in
      let ctx :=
        match GetTask app (pod_UID pod) with
        | inr _ =>
            Context_AddTask ctx
              {| treq_ApplicationID := GetApplicationID app;
                 treq_TaskID := pod_UID pod;
                 treq_Pod := pod;
                 treq_Recovery := recovery |}
        | inl _ => ctx
        end in
      (ctx, effs, GetApplication ctx appId, added)
  end.

(** [os.RecoverApplication(pod)] *)
Definition RecoverApplication (ctx : Context) (pod : Pod)
  : Context * list Effect * option Application * bool :=
  addApplicationInternal ctx pod true.

(** [os.addPod(obj)] for an object that is a pod. *)
Definition addPod (ctx : Context) (pod : Pod) : Context * list Effect :=
  if decide (pod_Phase pod = PodPending)
  then (addApplicationInternal ctx pod false).1.1
  else (ctx, []).
End Service.
End general.

(** Every application is registered under its own id. *)
Definition keyedById (ctx : Context) : Prop :=
  ∀ appID app, GetApplication ctx appID = Some app → applicationID app = appID.

(** A state no verb of the table leaves. *)
Definition terminal (s : ApplicationState) : Prop :=
  s = Completed ∨ s = Killed ∨ s = Failed.

(** More sample values. *)
Module Samples2.

(** A scheduler core that refuses every request. *)
Definition refusing : SchedulerAPI := {| Update := λ _, Some "refused" |}.

Definition refusedApp (s : ApplicationState) : Application :=
  set_sm (NewApplication "app-05" "root.default" "bob" ∅ refusing)
         {| fsm.current := s; fsm.events := applicationEvents |}.

Definition refusedContext : Context :=
  set_applications Samples.emptyContext {[ "app-05" := refusedApp New ]}.

Definition healthy_n1 : SchedulerNode :=
  {| name := "n1"; uid := "n1"; capacity := node_Allocatable Samples.node_n1;
     schedulable := true; getNodeState := NodeHealthy |}.

Definition oneNode : schedulerNodes :=
  {| proxy := Samples.api; nodesMap := {[ "n1" := healthy_n1 ]} |}.

Definition node_n1_cordoned : Node :=
  {| node_Name := "n1"; node_UID := "n1"; node_Unschedulable := true;
     node_Allocatable := node_Allocatable Samples.node_n1 |}.

Definition newSchedulerNode (nodeName nodeUID : string)
    (res : common.Resource) (api : SchedulerAPI) (sched : bool)
  : SchedulerNode :=
  {| name := nodeName; uid := nodeUID; capacity := res;
     schedulable := sched; getNodeState := NodeNew |}.

Definition deleteRequest (n : UpdateNodeInfo) : UpdateRequest :=
  {| NewApplications := []; UpdatedNodes := [n]; RmID := Samples.clusterID |}.

Definition appIdOf (pod : Pod) : string + error :=
  match pod_Labels pod !! "applicationId" with
  | Some appId => inl appId
  | None => inr "unable to retrieve application ID from pod spec"
  end.

Definition pod_t9 : Pod :=
  {| pod_Name := "t9"; pod_Namespace := ""; pod_UID := "t9";
     pod_Labels := {[ "applicationId" := "app-09" ]};
     pod_NodeName := "n1"; pod_Phase := PodPending |}.

End Samples2.

(** The task [Context.AddTask] builds from a request. *)
Definition requestedTask (app : Application) (request : AddTaskRequest) : Task :=
  let task := NewTask (treq_TaskID request) (applicationID app)
                (treq_Pod request) in
  if treq_Recovery request
  then setAllocated task (pod_NodeName (treq_Pod request))
  else task.

(** * Pod objects behind pointers

    [GetPod] answers a [*v1.Pod]: the cache and its callers share the pod
    object.  Here the pod objects live in a store and the cache holds
    references to them, so that a write through a pointer is seen by every
    holder of the pointer and a deep copy is a new object. *)

#[global] Instance Pod_inhabited : Inhabited Pod :=
  populate {| pod_Name := ""; pod_Namespace := ""; pod_UID := "";
              pod_Labels := ∅; pod_NodeName := ""; pod_Phase := PodUnknown |}.

Module byref.

(** A pointer to a pod object, and the pod objects in memory. *)
Abbreviation ref := positive.
Abbreviation Objects := (gmap positive Pod).

(** [*pod] *)
Definition deref (objs : Objects) (pod : ref) : Pod := objs !!! pod.

(** [pod.DeepCopy()]: a new object with the same field values. *)
Definition DeepCopy (objs : Objects) (pod : ref) : Objects * ref :=
  let copy := fresh (dom objs) in
  (<[copy := deref objs pod]> objs, copy).

(** [pod.Spec.NodeName = node]: a write to the object behind the pointer. *)
Definition store_NodeName (objs : Objects) (pod : ref) (node : string)
  : Objects :=
  <[pod := set_NodeName (deref objs pod) node]> objs.

(** Modelled from the spec: the [SchedulerCache] of [pkg/cache/external],
    which is not part of the sources, holding pointers: the mirrored nodes
    and pods, and the record of assumed pods, each kept with its [allBound]
    flag.  Pods are keyed by their UID. *)
Record SchedulerCache := {
  nodesMap : gmap string Node;
  podsMap : gmap string ref;
  assumedPods : gmap string (ref * bool)
}.

Definition set_assumedPods (c : SchedulerCache) (m : gmap string (ref * bool))
  : SchedulerCache :=
  {| nodesMap := nodesMap c; podsMap := podsMap c; assumedPods := m |}.

(** Modelled from the spec: [GetPod] and [GetNode] of [pkg/cache/external]
    look a pod or a node up in the mirror. *)
Definition GetPod (c : SchedulerCache) (name : string) : option ref :=
  podsMap c !! name.

Definition GetNode (c : SchedulerCache) (name : string) : option Node :=
  nodesMap c !! name.

(** Modelled from the spec: [AssumePod] of [pkg/cache/external] records the
    assumed pod in the cache with the flag [allBound]. *)
Definition cache_AssumePod (c : SchedulerCache) (objs : Objects) (pod : ref)
    (allBound : bool) : SchedulerCache * option error :=
  (set_assumedPods c
     (<[pod_UID (deref objs pod) := (pod, allBound)]> (assumedPods c)), None).

(** Modelled from the spec: [ForgetPod] of [pkg/cache/external] removes the
    assumed pod from the cache; a pod that is not assumed is not an error. *)
Definition cache_ForgetPod (c : SchedulerCache) (objs : Objects) (pod : ref)
  : SchedulerCache * option error :=
  (set_assumedPods c (delete (pod_UID (deref objs pod)) (assumedPods c)), None).

(** The part of the context [AssumePod] and [ForgetPod] work on, with the
    pod objects. *)
Record Context := {
  objects : Objects;
  schedulerCache : SchedulerCache;
  apiProvider : APIs
}.

(** [ctx.AssumePod(name, node)] *)
Definition AssumePod (ctx : Context) (name node : string)
  : Context * option error :=
  match GetPod (schedulerCache ctx) name with
  | Some pod =>
      match GetNode (schedulerCache ctx) node with
      | Some targetNode =>
          let '(objs, assumedPod) := DeepCopy (objects ctx) pod in
          let '(allBound, err) :=
            match VolumeBinder (apiProvider ctx) with
            | Some binder => AssumePodVolumes binder (deref objs pod) node
            | None => (true, None)
            end in
          match err with
          | Some e =>
              ({| objects := objs; schedulerCache := schedulerCache ctx;
                  apiProvider := apiProvider ctx |}, Some e)
          | None =>
              let objs := store_NodeName objs assumedPod node in
              let '(c, res) :=
                cache_AssumePod (schedulerCache ctx) objs assumedPod allBound in
              ({| objects := objs; schedulerCache := c;
                  apiProvider := apiProvider ctx |}, res)
          end
      | None => (ctx, None)
      end
  | None => (ctx, None)
  end.

(** [ctx.ForgetPod(name)] *)
Definition ForgetPod (ctx : Context) (name : string)
  : Context * option error :=
  match GetPod (schedulerCache ctx) name with
  | Some pod =>
      let '(c, res) :=
        cache_ForgetPod (schedulerCache ctx) (objects ctx) pod in
      ({| objects := objects ctx; schedulerCache := c;
          apiProvider := apiProvider ctx |}, res)
  | None => (ctx, None)
  end.

(** Every pointer the cache holds is to an object in memory. *)
Definition live (ctx : Context) : Prop :=
  (∀ name pod, podsMap (schedulerCache ctx) !! name = Some pod →
               pod ∈ dom (objects ctx)) ∧
  (∀ key pod allBound,
     assumedPods (schedulerCache ctx) !! key = Some (pod, allBound) →
     pod ∈ dom (objects ctx)).

(** The cache as its readers see it: each pointer replaced by the pod it
    points to. *)
Definition contents (objs : Objects) (c : SchedulerCache)
  : external.SchedulerCache :=
  {| external.nodesMap := nodesMap c;
     external.podsMap := deref objs <$> podsMap c;
     external.assumedPods :=
       (λ entry, (deref objs entry.1, entry.2)) <$> assumedPods c |}.

(** A context whose cache mirrors pod [t1] and node [n1]. *)
Definition mirrored : Context :=
  {| objects := {[ 1%positive := Samples.pod_t1 ]};
     schedulerCache :=
       {| nodesMap := {[ "n1" := Samples.node_n1 ]};
          podsMap := {[ "t1" := 1%positive ]};
          assumedPods := ∅ |};
     apiProvider := Samples.apis |}.

(** The same context with [t1] assumed on [n1]. *)
Definition assumed : Context :=
  {| objects := {[ 1%positive := Samples.pod_t1;
                   2%positive := set_NodeName Samples.pod_t1 "n1" ]};
     schedulerCache :=
       {| nodesMap := {[ "n1" := Samples.node_n1 ]};
          podsMap := {[ "t1" := 1%positive ]};
          assumedPods := {[ "t1" := (2%positive, true) ]} |};
     apiProvider := Samples.apis |}.

End byref.

(** * Properties *)

(** ** The application state machine *)

(** The transition map built from the table of [NewApplication] is the
    table of the specification. *)
Lemma transitions_table (f : fsm.FSM) (verb : ApplicationEventType) (s : ApplicationState) :
  fsm.events f = applicationEvents →
  fsm.transitions f verb s =
    if bool_decide (s ∈ table_From verb) then Some (table_To verb) else None.
Proof.
  intros Hev. unfold fsm.transitions. rewrite Hev.
  destruct verb, s; vm_compute; reflexivity.
Qed.

Lemma set_sm_same (app : Application) : set_sm app (sm app) = app.
Proof. destruct app; reflexivity. Qed.

Lemma invalid_is_not_no_transition verb s :
  AppError_string (fsm.InvalidEventError verb s) ≠ "no transition".
Proof. unfold AppError_string. simpl. discriminate. Qed.

Lemma unknown_is_not_no_transition verb :
  AppError_string (fsm.UnknownEventError verb) ≠ "no transition".
Proof. unfold AppError_string. simpl. discriminate. Qed.

(** What [Event] answers, by cases on the transition map. *)
Lemma Event_defined {Eff} (f : fsm.FSM (St:=ApplicationState) (Ev:=ApplicationEventType)) (cbs : fsm.Callbacks (Eff:=Eff)) verb dst :
  fsm.transitions f verb (fsm.current f) = Some dst →
  fsm.Event f cbs verb =
    if decide (fsm.current f = dst)
    then (f, fsm.runCallback cbs verb, Some (fsm.NoTransitionError None))
    else ({| fsm.current := dst; fsm.events := fsm.events f |},
          fsm.runCallback cbs verb, None).
Proof. intros H. unfold fsm.Event. rewrite H. reflexivity. Qed.

Lemma Event_undefined {Eff} (f : fsm.FSM (St:=ApplicationState) (Ev:=ApplicationEventType)) (cbs : fsm.Callbacks (Eff:=Eff)) verb :
  fsm.transitions f verb (fsm.current f) = None →
  ∃ e, fsm.Event f cbs verb = (f, [], Some e) ∧
       AppError_string e ≠ "no transition".
Proof.
  intros H. unfold fsm.Event. rewrite H. case_bool_decide.
  - eexists; split; [reflexivity | apply invalid_is_not_no_transition].
  - eexists; split; [reflexivity | apply unknown_is_not_no_transition].
Qed.

Lemma handle_defined ClusterID (app : Application) (ev : ApplicationEvent) :
  builtByNewApplication app →
  GetApplicationState app ∈ table_From (GetEvent ev) →
  handle ClusterID app ev =
    (set_sm app {| fsm.current := table_To (GetEvent ev);
                   fsm.events := applicationEvents |},
     fsm.runCallback (applicationCallbacks ClusterID app) (GetEvent ev), None).
Proof.
  intros Hb Hin. unfold handle.
  rewrite (Event_defined _ _ _ (table_To (GetEvent ev))).
  2:{ rewrite transitions_table by exact Hb.
      rewrite bool_decide_eq_true_2; [reflexivity | exact Hin]. }
  destruct (decide _) as [Heq | Hne].
  - rewrite decide_True by reflexivity.
    do 2 f_equal. destruct app as [? ? ? ? ? ? [cur evs] ? ?].
    unfold builtByNewApplication in Hb. simpl in *. subst. reflexivity.
  - unfold builtByNewApplication in Hb. rewrite Hb. reflexivity.
Qed.

Lemma handle_undefined ClusterID (app : Application) (ev : ApplicationEvent) :
  builtByNewApplication app →
  GetApplicationState app ∉ table_From (GetEvent ev) →
  ∃ e, handle ClusterID app ev = (app, [], Some e).
Proof.
  intros Hb Hin. unfold handle.
  destruct (Event_undefined (sm app) (applicationCallbacks ClusterID app)
              (GetEvent ev)) as (e & -> & Hne).
  { rewrite transitions_table by exact Hb.
    rewrite bool_decide_eq_false_2; [reflexivity | exact Hin]. }
  exists e. rewrite decide_False by exact Hne. rewrite set_sm_same. reflexivity.
Qed.

Lemma NewApplication_built appID queueName user tags scheduler :
  builtByNewApplication (NewApplication appID queueName user tags scheduler).
Proof. reflexivity. Qed.

Lemma handle_built ClusterID (app : Application) (ev : ApplicationEvent) :
  builtByNewApplication app →
  builtByNewApplication (handle ClusterID app ev).1.1.
Proof.
  intros Hb.
  destruct (decide (GetApplicationState app ∈ table_From (GetEvent ev)))
    as [Hin | Hout].
  - rewrite handle_defined by assumption. reflexivity.
  - destruct (handle_undefined ClusterID app ev Hb Hout) as [e ->]. exact Hb.
Qed.

Lemma canHandle_table (app : Application) (ev : ApplicationEvent) :
  builtByNewApplication app →
  canHandle app ev = bool_decide (GetApplicationState app ∈ table_From (GetEvent ev)).
Proof.
  intros Hb. unfold canHandle, fsm.Can.
  rewrite transitions_table by exact Hb. apply bool_decide_ext.
  unfold GetApplicationState, fsm.Current.
  case_bool_decide as Hin; split; intros H.
  - exact Hin.
  - eauto.
  - destruct H; discriminate.
  - contradiction.
Qed.

(** C2: the application machine admits exactly the transitions of the
    table.  Firing a verb through [handle] succeeds exactly when the current
    state is in the verb's From set, and then the state becomes the verb's To
    state; for every other pair of a state and a verb, [canHandle] answers
    false and firing changes nothing: the application is the same and no
    callback has run. *)
Theorem application_transition_table ClusterID (app : Application)
    (ev : ApplicationEvent) :
  builtByNewApplication app →
  let s := GetApplicationState app in
  let verb := GetEvent ev in
  let r := handle ClusterID app ev in
  (canHandle app ev = true ↔ s ∈ table_From verb) ∧
  (r.2 = None ↔ s ∈ table_From verb) ∧
  (s ∈ table_From verb → GetApplicationState r.1.1 = table_To verb) ∧
  (s ∉ table_From verb → canHandle app ev = false ∧ r.1.1 = app ∧ r.1.2 = []).
Proof.
  intros Hb s verb r. subst s verb r.
  rewrite canHandle_table by exact Hb.
  destruct (decide (GetApplicationState app ∈ table_From (GetEvent ev)))
    as [Hin | Hout].
  - rewrite handle_defined by assumption. simpl.
    rewrite bool_decide_eq_true. repeat split; try done.
  - destruct (handle_undefined ClusterID app ev Hb Hout) as [e ->]. simpl.
    rewrite bool_decide_eq_true. repeat split; try done.
    apply bool_decide_eq_false_2. exact Hout.
Qed.

Lemma application_transition_table_witness :
  builtByNewApplication (Samples.appIn Submitted) ∧
  GetApplicationState
    (handle Samples.clusterID (Samples.appIn Submitted)
       (NewSimpleApplicationEvent "app-02" RejectApplication)).1.1 = Rejected.
Proof.
  split; [reflexivity |].
  apply (application_transition_table Samples.clusterID
           (Samples.appIn Submitted)
           (NewSimpleApplicationEvent "app-02" RejectApplication)).
  - reflexivity.
  - by_decide.
Defined.

(** C3: when the machine answers the same-state error, [handle] returns
    [nil]; any other error of the machine is returned to the caller and the
    application is left as it was. *)
Theorem handle_no_transition_is_success ClusterID (app : Application)
    (ev : ApplicationEvent) f effs e :
  fsm.Event (sm app) (applicationCallbacks ClusterID app) (GetEvent ev)
    = (f, effs, Some e) →
  let r := handle ClusterID app ev in
  match e with
  | fsm.NoTransitionError _ =>
      r.2 = None ∧ GetApplicationState r.1.1 = GetApplicationState app
  | _ => r.2 = Some e ∧ r.1.1 = app
  end.
Proof.
  intros HE r. subst r. unfold handle. rewrite HE.
  unfold fsm.Event in HE.
  destruct (fsm.transitions (sm app) (GetEvent ev) (fsm.current (sm app)))
    as [dst |].
  - destruct (decide (fsm.current (sm app) = dst)); [| discriminate].
    injection HE as <- <- <-.
    rewrite decide_True by reflexivity. simpl. split; [reflexivity |].
    rewrite set_sm_same. reflexivity.
  - case_bool_decide; injection HE as <- <- <-.
    + rewrite decide_False by apply invalid_is_not_no_transition.
      simpl. rewrite set_sm_same. done.
    + rewrite decide_False by apply unknown_is_not_no_transition.
      simpl. rewrite set_sm_same. done.
Qed.

Lemma handle_no_transition_is_success_witness :
  (handle Samples.clusterID (Samples.appIn Running)
     (NewSimpleApplicationEvent "app-02" RunApplication)).2 = None ∧
  GetApplicationState
    (handle Samples.clusterID (Samples.appIn Running)
       (NewSimpleApplicationEvent "app-02" RunApplication)).1.1 = Running.
Proof.
  exact (handle_no_transition_is_success Samples.clusterID
           (Samples.appIn Running)
           (NewSimpleApplicationEvent "app-02" RunApplication)
           (sm (Samples.appIn Running)) [] (fsm.NoTransitionError None)
           eq_refl).
Defined.

(** ** Rejection *)

Lemma handler_other_application ClusterID ctx event appID :
  GetApplicationID_ev event ≠ appID →
  GetApplication (ApplicationEventHandler ClusterID ctx event).1 appID
    = GetApplication ctx appID.
Proof.
  intros Hne. unfold ApplicationEventHandler.
  destruct (GetApplication ctx (GetApplicationID_ev event)) as [app |];
    [| reflexivity].
  destruct (canHandle app event); [| reflexivity].
  destruct (handle ClusterID app event) as [[app' effs] res]. simpl.
  unfold GetApplication. simpl. apply lookup_insert_ne. exact Hne.
Qed.

Lemma handler_this_application ClusterID ctx event app :
  GetApplication ctx (GetApplicationID_ev event) = Some app →
  builtByNewApplication app →
  ApplicationEventHandler ClusterID ctx event =
    if bool_decide (GetApplicationState app ∈ table_From (GetEvent event))
    then (set_applications ctx
            (<[GetApplicationID_ev event :=
                 set_sm app {| fsm.current := table_To (GetEvent event);
                               fsm.events := applicationEvents |}]>
               (applications ctx)),
          fsm.runCallback (applicationCallbacks ClusterID app) (GetEvent event))
    else (ctx, []).
Proof.
  intros Hget Hb. unfold ApplicationEventHandler. rewrite Hget.
  rewrite canHandle_table by exact Hb.
  case_bool_decide as Hin; [| reflexivity].
  rewrite handle_defined by assumption. reflexivity.
Qed.

Lemma rejectedOrFailed_step ClusterID ctx event appID :
  rejectedOrFailed appID ctx →
  rejectedOrFailed appID (ApplicationEventHandler ClusterID ctx event).1.
Proof.
  intros (app & Hget & Hb & Hst).
  destruct (decide (GetApplicationID_ev event = appID)) as [<- | Hne].
  - rewrite (handler_this_application _ _ _ _ Hget Hb).
    case_bool_decide as Hin; [| exists app; done].
    eexists. split; [apply lookup_insert_eq |]. split; [reflexivity |].
    unfold GetApplicationState, fsm.Current in *. simpl.
    destruct Hst as [Hst | Hst]; rewrite Hst in Hin; revert Hin;
      destruct (GetEvent event); by_decide.
  - exists app. rewrite handler_other_application by exact Hne. done.
Qed.

Lemma rejectedOrFailed_deliver ClusterID queue ctx appID :
  rejectedOrFailed appID ctx →
  rejectedOrFailed appID (deliver ClusterID ctx queue).1.
Proof.
  revert ctx. induction queue as [| event rest IH]; intros ctx Hinv; [exact Hinv |].
  simpl.
  pose proof (rejectedOrFailed_step ClusterID ctx event appID Hinv) as Hstep.
  destruct (ApplicationEventHandler ClusterID ctx event) as [ctx1 effs1].
  specialize (IH ctx1 Hstep).
  destruct (deliver ClusterID ctx1 rest) as [ctx2 effs2]. exact IH.
Qed.

Lemma deliver_app ClusterID q1 q2 ctx :
  (deliver ClusterID ctx (q1 ++ q2)).1 =
  (deliver ClusterID (deliver ClusterID ctx q1).1 q2).1.
Proof.
  revert ctx. induction q1 as [| event rest IH]; intros ctx; [reflexivity |].
  simpl. destruct (ApplicationEventHandler ClusterID ctx event) as [ctx1 effs1].
  specialize (IH ctx1).
  destruct (deliver ClusterID ctx1 (rest ++ q2)) as [ctx2 effs2].
  destruct (deliver ClusterID ctx1 rest) as [ctx3 effs3]. simpl in *.
  exact IH.
Qed.

Lemma fail_reaches_Failed ClusterID ctx appID :
  rejectedOrFailed appID ctx →
  GetApplicationState <$>
    GetApplication
      (ApplicationEventHandler ClusterID ctx (NewFailApplicationEvent appID)).1
      appID = Some Failed.
Proof.
  intros (app & Hget & Hb & Hst).
  rewrite (handler_this_application ClusterID ctx
             (NewFailApplicationEvent appID) app Hget Hb).
  simpl. unfold GetApplicationState, fsm.Current in *.
  destruct Hst as [Hst | Hst]; rewrite Hst.
  - rewrite bool_decide_eq_true_2 by by_decide. simpl.
    unfold GetApplication. simpl. rewrite lookup_insert_eq. reflexivity.
  - rewrite bool_decide_eq_false_2 by by_decide. simpl.
    rewrite Hget. simpl. rewrite Hst. reflexivity.
Qed.

(** C6: an application in state Submitted that handles RejectApplication
    moves to Rejected; its callback dispatches FailApplication for the
    application and sends nothing to the scheduler core; and once the
    dispatcher delivers that event, whatever application events it delivers
    before it, the application is in state Failed. *)
Theorem reject_then_fail ClusterID (ctx : Context) (appID : string)
    (app : Application) :
  GetApplication ctx appID = Some app →
  builtByNewApplication app →
  applicationID app = appID →
  GetApplicationState app = Submitted →
  let r := ApplicationEventHandler ClusterID ctx
             (NewSimpleApplicationEvent appID RejectApplication) in
  GetApplicationState <$> GetApplication r.1 appID = Some Rejected ∧
  r.2 = [Dispatch (NewFailApplicationEvent appID)] ∧
  updatesSent r.2 = [] ∧
  ∀ pending : list ApplicationEvent,
    GetApplicationState <$>
      GetApplication
        (deliver ClusterID r.1 (pending ++ [NewFailApplicationEvent appID])).1
        appID = Some Failed.
Proof.
  intros Hget Hb Hid Hst r. subst r.
  rewrite (handler_this_application ClusterID ctx
             (NewSimpleApplicationEvent appID RejectApplication) app Hget Hb).
  simpl. rewrite Hst. rewrite bool_decide_eq_true_2 by by_decide.
  unfold fsm.runCallback. simpl. unfold handleRejectApplicationEvent.
  rewrite Hid.
  split; [| split; [reflexivity | split; [reflexivity |]]].
  - unfold GetApplication. simpl. rewrite lookup_insert_eq. reflexivity.
  - intros pending. rewrite deliver_app. simpl.
    match goal with
    | |- context [ApplicationEventHandler _ ?c _] =>
        pose proof (fail_reaches_Failed ClusterID c appID) as HF
    end.
    destruct (ApplicationEventHandler _ _ _) as [ctx2 effs2]. simpl in *.
    apply HF. apply rejectedOrFailed_deliver.
    eexists. split; [apply lookup_insert_eq |]. split; [reflexivity |].
    left. reflexivity.
Qed.

Lemma reject_then_fail_witness :
  GetApplicationState <$>
    GetApplication
      (ApplicationEventHandler Samples.clusterID Samples.submitted
         (NewSimpleApplicationEvent "app-02" RejectApplication)).1 "app-02"
    = Some Rejected.
Proof.
  apply (reject_then_fail Samples.clusterID Samples.submitted "app-02"
           (Samples.appIn Submitted)); reflexivity.
Defined.

(** ** Assuming and forgetting pods *)

(** The claim of C1 fails: with an empty cache, [AssumePod] returns [nil],
    not an error. *)
Lemma AssumePod_missing_is_not_an_error :
  external.GetPod (schedulerCache Samples.emptyContext) "t1" = None ∧
  ¬ is_Some (AssumePod Samples.emptyContext "t1" "n1").2.
Proof. split; [reflexivity |]. simpl. intros [e He]. discriminate He. Qed.

(** C1, amended: when the pod or the node is not in the orchestrator cache,
    [AssumePod] returns [nil] and changes nothing. *)
Theorem AssumePod_missing (ctx : Context) (name node : string) :
  external.GetPod (schedulerCache ctx) name = None ∨
  external.GetNode (schedulerCache ctx) node = None →
  AssumePod ctx name node = (ctx, None).
Proof.
  intros [Hpod | Hnode]; unfold AssumePod.
  - rewrite Hpod. reflexivity.
  - rewrite Hnode. destruct (external.GetPod _ _); reflexivity.
Qed.

Lemma AssumePod_missing_witness :
  AssumePod Samples.mirrored "t1" "n2" = (Samples.mirrored, None).
Proof. apply AssumePod_missing. right. reflexivity. Defined.

(** ** Assuming and forgetting pods, with the pod objects *)

Lemma deref_live (objs : byref.Objects) (pod : byref.ref) (p : Pod) :
  objs !! pod = Some p → byref.deref objs pod = p.
Proof. intros H. unfold byref.deref. by apply lookup_total_correct. Qed.



(** A new object changes nothing of what the readers of the cache see. *)
Lemma contents_alloc (ctx : byref.Context) (v : Pod) :
  byref.live ctx →
  byref.contents (<[fresh (dom (byref.objects ctx)) := v]> (byref.objects ctx))
    (byref.schedulerCache ctx)
  = byref.contents (byref.objects ctx) (byref.schedulerCache ctx).
Proof.
  intros [Hlp Hla].
  assert (Hkeep : ∀ r, r ∈ dom (byref.objects ctx) →
            byref.deref (<[fresh (dom (byref.objects ctx)) := v]>
                           (byref.objects ctx)) r
            = byref.deref (byref.objects ctx) r).
  { intros r Hr. unfold byref.deref. rewrite !lookup_total_alt.
    rewrite lookup_insert_ne; [reflexivity |].
    intros Heq. apply (is_fresh (dom (byref.objects ctx))). by rewrite Heq. }
  unfold byref.contents. f_equal.
  - apply map_fmap_ext. intros k r Hk. apply Hkeep. eauto.
  - apply map_fmap_ext. intros k [r b] Hk. simpl. rewrite Hkeep; eauto.
Qed.




(** The context of the counterexample below is the one [AssumePod] itself
    leaves when [t1] is assumed on [n1]. *)
Lemma assumed_is_reached :
  byref.AssumePod byref.mirrored "t1" "n1" = (byref.assumed, None).
Proof. vm_compute. reflexivity. Qed.


(** The orchestrator cache of the earlier sections is what the readers of
    this one see: [AssumePod] and [ForgetPod] there give the result, and
    leave the cache, that the calls here give and leave. *)
Lemma AssumePod_contents (ctx : byref.Context) (v : Context)
    (name node : string) :
  byref.live ctx →
  schedulerCache v
    = byref.contents (byref.objects ctx) (byref.schedulerCache ctx) →
  apiProvider v = byref.apiProvider ctx →
  let r := byref.AssumePod ctx name node in
  (AssumePod v name node).2 = r.2 ∧
  schedulerCache (AssumePod v name node).1
    = byref.contents (byref.objects r.1) (byref.schedulerCache r.1) ∧
  byref.live r.1.
Proof.
  intros Hlive Hv Hapi r. subst r. pose proof Hlive as [Hlp Hla].
  unfold AssumePod. rewrite Hv, Hapi.
  unfold external.GetPod, external.GetNode.
  cbn [byref.contents external.podsMap external.nodesMap].
  rewrite lookup_fmap.
  destruct (byref.podsMap (byref.schedulerCache ctx) !! name) as [p |] eqn:Hp;
    cbn [fmap option_fmap option_map].
  2:{ unfold byref.AssumePod, byref.GetPod. rewrite Hp. done. }
  destruct (byref.nodesMap (byref.schedulerCache ctx) !! node)
    as [targetNode |] eqn:Hn.
  2:{ unfold byref.AssumePod, byref.GetPod, byref.GetNode. rewrite Hp, Hn.
      done. }
  pose proof (Hlp _ _ Hp) as Hin. apply elem_of_dom in Hin as [pod Hobj].
  rewrite (deref_live _ _ _ Hobj).
  assert (Hnew : ∀ x : Pod,
            byref.live
              {| byref.objects :=
                   <[fresh (dom (byref.objects ctx)) := x]> (byref.objects ctx);
                 byref.schedulerCache := byref.schedulerCache ctx;
                 byref.apiProvider := byref.apiProvider ctx |}).
  { intros x. split; cbn [byref.objects byref.schedulerCache].
    - intros k r Hk. rewrite dom_insert_L. apply elem_of_union_r. eauto.
    - intros k r b Hk. rewrite dom_insert_L. apply elem_of_union_r. eauto. }
  assert (DeepCopy pod = pod) as -> by (destruct pod; reflexivity).
  set (copy := fresh (dom (byref.objects ctx))) in *.
  assert (Hcopy : copy ≠ p).
  { intros Heq. apply (is_fresh (dom (byref.objects ctx))). fold copy.
    rewrite Heq. apply elem_of_dom. eauto. }
  unfold byref.AssumePod, byref.GetPod, byref.GetNode. rewrite Hp, Hn.
  unfold byref.DeepCopy. fold copy. rewrite (deref_live _ _ _ Hobj).
  rewrite (deref_live (<[copy := pod]> _) p pod)
    by (rewrite lookup_insert_ne; [exact Hobj | exact Hcopy]).
  assert (Hstore : byref.store_NodeName (<[copy := pod]> (byref.objects ctx))
                     copy node
                   = <[copy := set_NodeName pod node]> (byref.objects ctx)).
  { unfold byref.store_NodeName.
    rewrite (deref_live _ copy pod) by apply lookup_insert_eq.
    apply insert_insert_eq. }
  assert (Hok : ∀ allBound,
    schedulerCache
      (set_schedulerCache v
         (external.AssumePod
            (byref.contents (byref.objects ctx) (byref.schedulerCache ctx))
            (set_NodeName pod node) allBound).1)
    = byref.contents
        (byref.store_NodeName (<[copy := pod]> (byref.objects ctx)) copy node)
        (byref.cache_AssumePod (byref.schedulerCache ctx)
           (byref.store_NodeName (<[copy := pod]> (byref.objects ctx)) copy node)
           copy allBound).1 ∧
    byref.live
      {| byref.objects :=
           byref.store_NodeName (<[copy := pod]> (byref.objects ctx)) copy node;
         byref.schedulerCache :=
           (byref.cache_AssumePod (byref.schedulerCache ctx)
              (byref.store_NodeName (<[copy := pod]> (byref.objects ctx))
                 copy node) copy allBound).1;
         byref.apiProvider := byref.apiProvider ctx |}).
  { intros allBound. rewrite Hstore. unfold byref.cache_AssumePod.
    rewrite (deref_live _ copy (set_NodeName pod node))
      by apply lookup_insert_eq.
    cbn [fst snd schedulerCache set_schedulerCache external.AssumePod].
    split.
    - rewrite <- (contents_alloc ctx (set_NodeName pod node) Hlive). fold copy.
      unfold byref.contents, external.set_assumedPods, byref.set_assumedPods.
      cbn [external.nodesMap external.podsMap external.assumedPods
           byref.nodesMap byref.podsMap byref.assumedPods pod_UID set_NodeName].
      f_equal. rewrite fmap_insert. cbn [fst snd].
      rewrite (deref_live _ _ (set_NodeName pod node)) by apply lookup_insert_eq.
      reflexivity.
    - split; cbn [byref.objects byref.schedulerCache byref.set_assumedPods
                  byref.podsMap byref.assumedPods].
      + intros k r Hk. rewrite dom_insert_L. apply elem_of_union_r. eauto.
      + intros k r b Hk. rewrite dom_insert_L.
        apply lookup_insert_Some in Hk as [[_ Hk] | [_ Hk]].
        * injection Hk as <- _. apply elem_of_union_l, elem_of_singleton.
          reflexivity.
        * apply elem_of_union_r. eauto. }
  destruct (VolumeBinder (byref.apiProvider ctx)) as [binder |].
  - destruct (AssumePodVolumes binder pod node) as [allBound [e |]].
    + cbn [fst snd byref.objects byref.schedulerCache].
      split; [reflexivity |]. split; [| apply Hnew].
      rewrite Hv. symmetry. by apply contents_alloc.
    + specialize (Hok allBound). cbn [fst snd] in *.
      unfold external.AssumePod in *. unfold byref.cache_AssumePod in *.
      cbn [fst snd] in *. split; [reflexivity | exact Hok].
  - specialize (Hok true). cbn [fst snd] in *.
    unfold external.AssumePod in *. unfold byref.cache_AssumePod in *.
    cbn [fst snd] in *. split; [reflexivity | exact Hok].
Qed.

Lemma ForgetPod_contents (ctx : byref.Context) (v : Context) (name : string) :
  byref.live ctx →
  schedulerCache v
    = byref.contents (byref.objects ctx) (byref.schedulerCache ctx) →
  let r := byref.ForgetPod ctx name in
  (ForgetPod v name).2 = r.2 ∧
  schedulerCache (ForgetPod v name).1
    = byref.contents (byref.objects r.1) (byref.schedulerCache r.1) ∧
  byref.live r.1.
Proof.
  intros Hlive Hv r. subst r. pose proof Hlive as [Hlp Hla].
  unfold ForgetPod, byref.ForgetPod. rewrite Hv.
  unfold external.GetPod, byref.GetPod.
  cbn [byref.contents external.podsMap]. rewrite lookup_fmap.
  destruct (byref.podsMap (byref.schedulerCache ctx) !! name) as [p |] eqn:Hp;
    cbn [fmap option_fmap option_map]; [| done].
  unfold external.ForgetPod, byref.cache_ForgetPod.
  cbn [fst snd schedulerCache set_schedulerCache byref.objects
       byref.schedulerCache].
  split; [reflexivity |]. split.
  - unfold byref.contents, external.set_assumedPods, byref.set_assumedPods.
    cbn [external.nodesMap external.podsMap external.assumedPods
         byref.nodesMap byref.podsMap byref.assumedPods].
    f_equal. rewrite fmap_delete. reflexivity.
  - split; cbn [byref.objects byref.schedulerCache byref.set_assumedPods
                byref.podsMap byref.assumedPods].
    + exact Hlp.
    + intros k r b Hk. apply lookup_delete_Some in Hk as [_ Hk]. eauto.
Qed.

(** C5: [ForgetPod] of a name that is not in the scheduler cache returns
    [nil] and changes nothing; and a second [ForgetPod] of the same name
    returns [nil] and leaves the context as the first call left it. *)
Theorem ForgetPod_idempotent (ctx : Context) (name : string) :
  (external.GetPod (schedulerCache ctx) name = None →
   ForgetPod ctx name = (ctx, None)) ∧
  (ForgetPod ctx name).2 = None ∧
  ForgetPod (ForgetPod ctx name).1 name = ((ForgetPod ctx name).1, None).
Proof.
  unfold ForgetPod. split; [intros ->; reflexivity |].
  destruct (external.GetPod (schedulerCache ctx) name) as [pod |] eqn:Hpod;
    simpl.
  - split; [reflexivity |]. unfold external.GetPod in *. simpl.
    rewrite Hpod. simpl. rewrite delete_delete_eq. reflexivity.
  - split; [reflexivity |]. rewrite Hpod. reflexivity.
Qed.

Lemma ForgetPod_idempotent_witness :
  ForgetPod Samples.emptyContext "t1" = (Samples.emptyContext, None).
Proof.
  apply (proj1 (ForgetPod_idempotent Samples.emptyContext "t1")). reflexivity.
Defined.

(** ** Node updates *)

Lemma Equals_componentwise (left right : common.Resource) :
  common.Equals left right = true ↔ ∀ kind, left !! kind = right !! kind.
Proof.
  unfold common.Equals. rewrite bool_decide_eq_true. split.
  - intros Hall kind.
    destruct (decide (kind ∈ dom left ∪ dom right)) as [Hin | Hout].
    + exact (Hall kind Hin).
    + apply not_elem_of_union in Hout as [Hl Hr].
      apply not_elem_of_dom in Hl, Hr. congruence.
  - intros Hall kind _. apply Hall.
Qed.

Lemma updatesSent_app (l1 l2 : list Effect) :
  updatesSent (l1 ++ l2) = updatesSent l1 ++ updatesSent l2.
Proof. apply filter_app. Qed.

Lemma drainNode_sends_nothing nc node : updatesSent (drainNode nc node) = [].
Proof.
  unfold drainNode. destruct (nodesMap nc !! node_Name node); [| reflexivity].
  destruct (decide _); reflexivity.
Qed.

Lemma restoreNode_sends_nothing nc node : updatesSent (restoreNode nc node) = [].
Proof.
  unfold restoreNode. destruct (nodesMap nc !! node_Name node); [| reflexivity].
  destruct (decide _); reflexivity.
Qed.

Lemma updateNode_updatesSent ClusterID nc oldNode newNode :
  updatesSent (updateNode ClusterID nc oldNode newNode) =
    if equals oldNode newNode then []
    else [SchedulerUpdate
            (common.CreateUpdateRequestForUpdatedNode ClusterID
               (common.CreateFrom newNode))].
Proof.
  unfold updateNode. rewrite updatesSent_app.
  assert (updatesSent
            (if negb (node_Unschedulable oldNode) && node_Unschedulable newNode
             then drainNode nc newNode
             else if node_Unschedulable oldNode && negb (node_Unschedulable newNode)
                  then restoreNode nc newNode else []) = []) as ->.
  { destruct (negb _ && _); [apply drainNode_sends_nothing |].
    destruct (_ && _); [apply restoreNode_sends_nothing | reflexivity]. }
  destruct (equals oldNode newNode); reflexivity.
Qed.

(** C7: when the resource vectors of the old and the new node agree on
    every resource kind, [updateNode] sends no request to the scheduler
    core; when they differ on some kind, it sends one request, which
    reports the new node under [UpdatedNodes].  The order in which the
    kinds of a vector are listed does not matter. *)
Theorem updateNode_reports_resource_change ClusterID (nc : schedulerNodes)
    (oldNode newNode : Node) :
  let old := common.GetNodeResource oldNode in
  let new := common.GetNodeResource newNode in
  let sent := updatesSent (updateNode ClusterID nc oldNode newNode) in
  ((∀ kind, old !! kind = new !! kind) → sent = []) ∧
  ((∃ kind, old !! kind ≠ new !! kind) →
   sent = [SchedulerUpdate
             {| NewApplications := [];
                UpdatedNodes := [common.CreateFrom newNode];
                RmID := ClusterID |}]) ∧
  (∀ l1 l2 : list (string * Z),
     NoDup l1.*1 → l1 ≡ₚ l2 →
     node_Allocatable oldNode = list_to_map l1 →
     node_Allocatable newNode = list_to_map l2 →
     sent = []).
Proof.
  intros old new sent. subst old new sent. rewrite updateNode_updatesSent.
  unfold equals.
  destruct (common.Equals _ _) eqn:HE.
  - pose proof (proj1 (Equals_componentwise _ _) HE) as Hall.
    split; [done |]. split; [| done].
    intros [kind Hne]. destruct Hne. apply Hall.
  - split; [| split; [done |]].
    + intros Hall. apply (proj2 (Equals_componentwise _ _)) in Hall.
      congruence.
    + intros l1 l2 Hnd Hperm H1 H2.
      assert (common.Equals (common.GetNodeResource oldNode)
                (common.GetNodeResource newNode) = true) as Heq; [| congruence].
      apply Equals_componentwise. intros kind.
      unfold common.GetNodeResource. rewrite H1, H2.
      rewrite (list_to_map_proper l1 l2 Hnd Hperm). reflexivity.
Qed.

Lemma updateNode_reports_resource_change_witness :
  updatesSent
    (updateNode Samples.clusterID Samples.noNodes Samples.node_n1
       Samples.node_n1_grown)
  = [SchedulerUpdate
       {| NewApplications := [];
          UpdatedNodes := [common.CreateFrom Samples.node_n1_grown];
          RmID := Samples.clusterID |}].
Proof.
  apply (updateNode_reports_resource_change Samples.clusterID Samples.noNodes
           Samples.node_n1 Samples.node_n1_grown).
  exists "cpu". vm_compute. discriminate.
Defined.

(** ** The completion handler *)

(** Starting the handler never sets the [running] flag. *)
Lemma startCompletionHandler_running (app : Application) (pod : Pod) :
  running (ch (startCompletionHandler app pod).1) = running (ch app).
Proof.
  unfold startCompletionHandler, startSparkCompletionHandler.
  case_bool_decide; [| reflexivity].
  destruct (running (ch app)) eqn:Hr; simpl; congruence.
Qed.

(** C8 does not hold of the code: the [running] flag is still false after
    the handler of an application was started for a Spark driver pod, and a
    second start with the same pod launches a second watcher. *)
Theorem completion_handler_started_twice (app : Application) (pod : Pod) :
  pod_Labels pod !! SparkLabelRole = Some SparkLabelRoleDriver →
  running (ch app) = false →
  let r1 := startCompletionHandler app pod in
  let r2 := startCompletionHandler r1.1 pod in
  running (ch r1.1) = false ∧
  watchersLaunched r1.2 = [Go_completeFn (applicationID app) pod] ∧
  watchersLaunched r2.2 = [Go_completeFn (applicationID app) pod].
Proof.
  intros Hlabel Hrun r1 r2. subst r1 r2.
  unfold startCompletionHandler, startSparkCompletionHandler.
  rewrite !bool_decide_eq_true_2 by exact Hlabel.
  rewrite Hrun. simpl. done.
Qed.

Lemma completion_handler_started_twice_witness :
  watchersLaunched
    (startCompletionHandler
       (startCompletionHandler (Samples.appIn Running) Samples.driver).1
       Samples.driver).2
  = [Go_completeFn "app-02" Samples.driver].
Proof.
  apply (completion_handler_started_twice (Samples.appIn Running)
           Samples.driver); reflexivity.
Defined.

Lemma watchLoop_dispatch appID pod resultChan :
  (watchLoop appID pod resultChan).2 =
    if decide ((watchLoop appID pod resultChan).1 = DriverSucceeded)
    then [Dispatch (NewSimpleApplicationEvent appID CompleteApplication)]
    else [].
Proof.
  induction resultChan as [| [resp |] rest IH]; simpl; try reflexivity.
  case_bool_decide; [reflexivity | exact IH].
Qed.

Lemma watchLoop_closed appID pod resultChan :
  (watchLoop appID pod resultChan).1 = ChannelClosed ↔
  Forall (otherPodUpdate pod) resultChan.
Proof.
  induction resultChan as [| [resp |] rest IH]; simpl.
  - split; [constructor | reflexivity].
  - case_bool_decide as Hs.
    + split; [discriminate |]. intros Hall.
      apply Forall_cons in Hall as [(r & Hr & Hn) _].
      injection Hr as <-. contradiction.
    + rewrite IH. split.
      * intros Hall. constructor; [exists resp; done | exact Hall].
      * intros Hall. by apply Forall_cons in Hall as [_ ?].
  - split; [discriminate |]. intros Hall.
    apply Forall_cons in Hall as [(r & Hr & _) _]. discriminate Hr.
Qed.

Lemma watchLoop_skips_other_updates appID pod pre rest :
  Forall (otherPodUpdate pod) pre →
  watchLoop appID pod (pre ++ rest) = watchLoop appID pod rest.
Proof.
  induction 1 as [| o pre (r & -> & Hr) _ IH]; [reflexivity |].
  simpl. rewrite bool_decide_eq_false_2 by exact Hr. exact IH.
Qed.

(** C9 does not hold of the code.  When the watch channel delivers an item
    that is not a pod before any success of the driver, the loop panics: it
    logs the failed type assertion and then reads the phase through the nil
    pointer.  So when the channel is closed after such an item and no
    success, the handler has not returned silently; and when a pod update
    with phase PodSucceeded and the UID of the driver pod follows the item,
    no CompleteApplication is dispatched. *)
Theorem completion_handler_panics_on_non_pod (appID : string)
    (pod resp : Pod) (pre post : list WatchObject) :
  Forall (otherPodUpdate pod) pre →
  driverSucceeded pod resp →
  let complete := Dispatch (NewSimpleApplicationEvent appID CompleteApplication) in
  let closes := run_completeFn appID pod (inr (pre ++ [OtherObject])) in
  let succeeds :=
    run_completeFn appID pod
      (inr (pre ++ OtherObject :: PodObject resp :: post)) in
  (closes.1 = Panicked ∧ closes.1 ≠ ChannelClosed ∧ closes.2 = []) ∧
  (succeeds.1 = Panicked ∧ complete ∉ succeeds.2).
Proof.
  intros Hpre Hs complete closes succeeds. subst complete closes succeeds.
  simpl. rewrite !watchLoop_skips_other_updates by exact Hpre. simpl.
  split; [split; [reflexivity | split; [discriminate | reflexivity]] |].
  split; [reflexivity | apply not_elem_of_nil].
Qed.

Lemma completion_handler_panics_on_non_pod_witness :
  (run_completeFn "app-02" Samples.driver
     (inr ([PodObject Samples.driver] ++
           OtherObject :: PodObject Samples.driver_done :: []))).1 = Panicked.
Proof.
  apply (completion_handler_panics_on_non_pod "app-02" Samples.driver
           Samples.driver_done [PodObject Samples.driver] []).
  - constructor; [| constructor].
    exists Samples.driver. split; [reflexivity |]. intros [Hphase _].
    discriminate Hphase.
  - split; reflexivity.
Defined.

(** ** Adding applications and tasks *)

(** C10: [AddApplication] always builds a new application in state New
    with no tasks and registers it under the requested id, whatever was
    registered there before, leaving the other entries alone; [Context.AddTask]
    and [Application.AddTask] change nothing when the task id is already
    present. *)
Theorem AddApplication_replaces_AddTask_skips (ctx : Context)
    (request : AddApplicationRequest) :
  let r := AddApplication ctx request in
  let app := r.1.2 in
  app = NewApplication (req_ApplicationID request) (req_QueueName request)
          (req_User request) (req_Tags request)
          (SchedulerAPI_of (apiProvider ctx)) ∧
  GetApplicationState app = New ∧
  taskMap app = ∅ ∧
  GetApplication r.1.1 (req_ApplicationID request) = Some app ∧
  (∀ appID, appID ≠ req_ApplicationID request →
            GetApplication r.1.1 appID = GetApplication ctx appID) ∧
  (∀ (treq : AddTaskRequest) (old : Application),
     GetApplication ctx (treq_ApplicationID treq) = Some old →
     is_Some (taskMap old !! treq_TaskID treq) →
     Context_AddTask ctx treq = ctx) ∧
  (∀ (old : Application) (task : Task),
     is_Some (taskMap old !! taskID task) → AddTask old task = old).
Proof.
  intros r app. subst r app. unfold AddApplication. simpl.
  repeat split.
  - unfold GetApplication. simpl. apply lookup_insert_eq.
  - intros appID Hne. unfold GetApplication. simpl.
    apply lookup_insert_ne. congruence.
  - intros treq old Hget [t Ht]. unfold Context_AddTask, GetTask.
    rewrite Hget, Ht. reflexivity.
  - intros old task [t Ht]. unfold AddTask. rewrite Ht. reflexivity.
Qed.

Lemma AddApplication_replaces_AddTask_skips_witness :
  taskMap (AddApplication Samples.running_with_task Samples.addApp02).1.2 = ∅ ∧
  Context_AddTask Samples.running_with_task Samples.addTask_t1
    = Samples.running_with_task.
Proof.
  pose proof (AddApplication_replaces_AddTask_skips Samples.running_with_task
                Samples.addApp02) as (_ & _ & Hempty & _ & _ & Hskip & _).
  split; [exact Hempty |].
  apply (Hskip Samples.addTask_t1 (AddTask (Samples.appIn Running) Samples.task_t1)).
  - reflexivity.
  - by_decide.
Defined.

(** * Further properties *)

(** ** Task lists *)

Lemma getTaskEntries_elem (app : Application) (state : TaskState)
    (tid : string) (task : Task) :
  (tid, task) ∈ getTaskEntries app state ↔
  taskMap app !! tid = Some task ∧ task_state task = state.
Proof.
  unfold getTaskEntries. case_bool_decide as Hsize.
  - rewrite list_elem_of_filter, elem_of_map_to_list. simpl. tauto.
  - split; [intros Hin; inversion Hin |].
    intros [Hget _]. destruct Hsize.
    destruct (decide (size (taskMap app) = 0)) as [H0 | ?]; [| lia].
    apply map_size_empty_iff in H0. rewrite H0 in Hget.
    rewrite lookup_empty in Hget. discriminate.
Qed.

Lemma getTaskEntries_NoDup (app : Application) (state : TaskState) :
  NoDup (getTaskEntries app state).*1.
Proof.
  unfold getTaskEntries. case_bool_decide; [| constructor].
  apply NoDup_fmap_fst.
  - intros k t1 t2 H1 H2. apply list_elem_of_filter in H1 as [_ H1].
    apply list_elem_of_filter in H2 as [_ H2].
    apply elem_of_map_to_list in H1, H2. congruence.
  - apply NoDup_filter, NoDup_map_to_list.
Qed.

(** X1: [getTasks] lists exactly the tasks of the task map that are in the
    asked state, each map entry once; so the lists for two different states
    share no task. *)
Theorem getTasks_exact (app : Application) (state : TaskState) :
  (∀ task, task ∈ getTasks app state ↔
           (∃ tid, taskMap app !! tid = Some task) ∧ task_state task = state) ∧
  NoDup (getTaskEntries app state).*1 ∧
  (length (getTasks app state) ≤ size (taskMap app))%nat ∧
  (∀ other task, other ≠ state → task ∈ getTasks app state →
                 task ∉ getTasks app other).
Proof.
  assert (Hmem : ∀ st task, task ∈ getTasks app st ↔
            (∃ tid, taskMap app !! tid = Some task) ∧ task_state task = st).
  { intros st task. unfold getTasks. rewrite list_elem_of_fmap. split.
    - intros ([tid t] & -> & Hin). apply getTaskEntries_elem in Hin as [? ?].
      eauto.
    - intros [[tid Hget] Hst]. exists (tid, task). split; [reflexivity |].
      apply getTaskEntries_elem. done. }
  split; [apply Hmem |]. split; [apply getTaskEntries_NoDup |]. split.
  - unfold getTasks, getTaskEntries. rewrite length_fmap.
    case_bool_decide; [| simpl; lia].
    etrans; [apply length_filter |]. by rewrite length_map_to_list.
  - intros other task Hne Hin Hin'. apply Hmem in Hin as [_ Hst].
    apply Hmem in Hin' as [_ Hst']. congruence.
Qed.

(** ** Adding a task and reading it back *)

(** X2: after [Context.AddTask] for a registered application, [getTask]
    finds a task under the requested id: the one that was there before, or,
    when the id was free, the new task (marked allocated on the pod's node
    in recovery).  Other task ids read as before. *)
Theorem AddTask_then_getTask (ctx : Context) (request : AddTaskRequest)
    (app : Application) :
  GetApplication ctx (treq_ApplicationID request) = Some app →
  let appID := treq_ApplicationID request in
  let tid := treq_TaskID request in
  let ctx' := Context_AddTask ctx request in
  getTask ctx' appID tid =
    inl (default (requestedTask app request) (taskMap app !! tid)) ∧
  (∀ other, other ≠ tid → getTask ctx' appID other = getTask ctx appID other).
Proof.
  intros Hget appID tid ctx'. subst appID tid ctx'. unfold Context_AddTask.
  rewrite Hget. unfold GetTask, GetApplication in *.
  destruct (taskMap app !! treq_TaskID request) as [old |] eqn:Hold.
  - split; [| reflexivity].
    unfold getTask, GetTask. rewrite Hget, Hold. reflexivity.
  - assert (taskID (requestedTask app request) = treq_TaskID request) as Hid.
    { unfold requestedTask. destruct (treq_Recovery request); reflexivity. }
    fold (requestedTask app request).
    unfold getTask, GetTask, AddTask. rewrite Hid, Hold. simpl.
    rewrite lookup_insert_eq. simpl. split.
    + rewrite lookup_insert_eq. reflexivity.
    + intros other Hne. rewrite lookup_insert_ne by congruence.
      rewrite Hget. reflexivity.
Qed.

Lemma AddTask_then_getTask_witness :
  getTask (Context_AddTask Samples.submitted Samples.addTask_t1) "app-02" "t1"
    = inl Samples.task_t1.
Proof.
  apply (AddTask_then_getTask Samples.submitted Samples.addTask_t1
           (Samples.appIn Submitted)).
  reflexivity.
Defined.

(** ** Scheduling an application *)

Lemma handle_only_sets_sm ClusterID (app : Application) (ev : ApplicationEvent) :
  (handle ClusterID app ev).1.1 = set_sm app (sm (handle ClusterID app ev).1.1).
Proof.
  unfold handle.
  destruct (fsm.Event (sm app) (applicationCallbacks ClusterID app) (GetEvent ev))
    as [[f effs] [e |]]; [destruct (decide _) |]; reflexivity.
Qed.

(** X3: [Schedule] on an application that is not Running.  In state New it
    submits: the state becomes Submitted, one request with the application's
    id, queue, partition, user and tags goes to the scheduler core, and
    FailApplication is dispatched exactly when the core refuses it; a second
    [Schedule] then does nothing.  In state Accepted it moves the
    application to Running and does nothing else.  In every other state but
    Running it changes nothing. *)
Theorem Schedule_drives_application ClusterID
    (sanityCheck : Task → option error)
    (handleInitTask : Task → Task * list Effect * option error)
    (app : Application) :
  builtByNewApplication app →
  let schedule := Schedule ClusterID sanityCheck handleInitTask in
  let r := schedule app in
  let req := newApplicationsRequest ClusterID app in
  (GetApplicationState app = New →
     GetApplicationState r.1 = Submitted ∧
     taskMap r.1 = taskMap app ∧
     r.2 = SchedulerUpdate req ::
           match Update (schedulerAPI app) req with
           | Some _ => [Dispatch (NewFailApplicationEvent (applicationID app))]
           | None => []
           end ∧
     schedule r.1 = (r.1, [])) ∧
  (GetApplicationState app = Accepted →
     GetApplicationState r.1 = Running ∧ taskMap r.1 = taskMap app ∧ r.2 = []) ∧
  (GetApplicationState app ∉ [New; Accepted; Running] → r = (app, [])).
Proof.
  intros Hb schedule r req. subst schedule r req. unfold Schedule.
  split; [| split].
  - intros Hst. rewrite Hst.
    rewrite handle_defined by (rewrite ?Hst; first [exact Hb | by_decide]).
    simpl. split; [reflexivity |]. split; [reflexivity |].
    split; [reflexivity |]. reflexivity.
  - intros Hst. rewrite Hst.
    rewrite handle_defined by (rewrite ?Hst; first [exact Hb | by_decide]).
    simpl. done.
  - intros Hst.
    destruct (GetApplicationState app); try reflexivity;
      destruct Hst; by_decide.
Qed.

Lemma Schedule_drives_application_witness :
  GetApplicationState
    (Schedule Samples.clusterID (λ _, None) (λ t, (t, [], None))
       (Samples.appIn New)).1 = Submitted.
Proof.
  apply (Schedule_drives_application Samples.clusterID (λ _, None)
           (λ t, (t, [], None)) (Samples.appIn New)); reflexivity.
Defined.

Lemma initTask_fold (sanityCheck : Task → option error)
    (handleInitTask : Task → Task * list Effect * option error)
    (entries : list (string * Task)) (acc : gmap string Task * list Effect) :
  NoDup entries.*1 →
  let m := (fold_left (initTask sanityCheck handleInitTask) entries acc).1 in
  (∀ k, k ∉ entries.*1 → m !! k = acc.1 !! k) ∧
  (∀ k t, (k, t) ∈ entries →
     m !! k = match sanityCheck t with
              | None => Some (handleInitTask t).1.1
              | Some _ => acc.1 !! k
              end).
Proof.
  revert acc. induction entries as [| [k0 t0] rest IH]; intros acc Hnd; simpl.
  - split; [done |]. intros k t Hin. inversion Hin.
  - apply NoDup_cons in Hnd as [Hk0 Hnd].
    specialize (IH (initTask sanityCheck handleInitTask acc (k0, t0)) Hnd).
    simpl in IH. destruct IH as [IHout IHin]. split.
    + intros k Hk. apply not_elem_of_cons in Hk as [Hne Hk].
      rewrite IHout by exact Hk. unfold initTask. simpl.
      destruct (sanityCheck t0); [reflexivity |].
      destruct (handleInitTask t0) as [[t' effs] err]. simpl.
      apply lookup_insert_ne. congruence.
    + intros k t Hin. apply elem_of_cons in Hin as [Heq | Hin].
      * injection Heq as -> ->. rewrite IHout by exact Hk0.
        unfold initTask. simpl. destruct (sanityCheck t0); [reflexivity |].
        destruct (handleInitTask t0) as [[t' effs] err]. simpl.
        apply lookup_insert_eq.
      * rewrite (IHin k t Hin). destruct (sanityCheck t); [| reflexivity].
        unfold initTask. simpl. destruct (sanityCheck t0); [reflexivity |].
        destruct (handleInitTask t0) as [[t' effs] err]. simpl.
        apply lookup_insert_ne. intros <-. apply Hk0.
        apply list_elem_of_fmap. exists (k0, t). done.
Qed.

(** X4: [Schedule] on a Running application keeps it Running and touches
    only tasks in state New that pass the sanity check: each of those is
    replaced by what [task.handle(InitTask)] left of it; every other task,
    and the set of task ids, stay as they were. *)
Theorem Schedule_running_tasks ClusterID
    (sanityCheck : Task → option error)
    (handleInitTask : Task → Task * list Effect * option error)
    (app : Application) :
  GetApplicationState app = Running →
  let r := Schedule ClusterID sanityCheck handleInitTask app in
  GetApplicationState r.1 = Running ∧
  (∀ tid task, taskMap app !! tid = Some task →
     taskMap r.1 !! tid =
       if bool_decide (task_state task = TaskNew ∧ sanityCheck task = None)
       then Some (handleInitTask task).1.1
       else Some task) ∧
  (∀ tid, taskMap app !! tid = None → taskMap r.1 !! tid = None).
Proof.
  intros Hst r. subst r. unfold Schedule. rewrite Hst.
  pose proof (initTask_fold sanityCheck handleInitTask
                (getTaskEntries app TaskNew) (taskMap app, [])
                (getTaskEntries_NoDup app TaskNew)) as [Hout Hin].
  simpl in Hout, Hin.
  assert (Hnokey : ∀ tid task, taskMap app !! tid = Some task →
                     task_state task ≠ TaskNew →
                     tid ∉ (getTaskEntries app TaskNew).*1).
  { intros tid task Hget Hne Hk. apply list_elem_of_fmap in Hk as ([k t] & -> & Hk).
    apply getTaskEntries_elem in Hk as [Hget' Hnew]. simpl in *. congruence. }
  case_bool_decide as Hlen.
  - destruct (fold_left _ _ _) as [tasks effs] eqn:Hfold. simpl in *.
    split; [exact Hst |]. split.
    + intros tid task Hget. case_bool_decide as Hc.
      * destruct Hc as [Hnew Hsane].
        rewrite (Hin tid task) by (apply getTaskEntries_elem; done).
        rewrite Hsane. reflexivity.
      * destruct (decide (task_state task = TaskNew)) as [Hnew | Hold].
        -- rewrite (Hin tid task) by (apply getTaskEntries_elem; done).
           destruct (sanityCheck task); [exact Hget | tauto].
        -- rewrite Hout by eauto. exact Hget.
    + intros tid Hnone. rewrite Hout; [exact Hnone |].
      intros Hk. apply list_elem_of_fmap in Hk as ([k t] & -> & Hk).
      apply getTaskEntries_elem in Hk as [Hget' _]. simpl in *. congruence.
  - simpl. split; [exact Hst |]. split; [| done].
    intros tid task Hget. case_bool_decide as Hc; [| exact Hget].
    destruct Hc as [Hnew _]. destruct Hlen.
    assert ((tid, task) ∈ getTaskEntries app TaskNew) as Hel
      by (apply getTaskEntries_elem; done).
    unfold GetNewTasks, getTasks. rewrite length_fmap.
    destruct (getTaskEntries app TaskNew); [inversion Hel | simpl; lia].
Qed.

Lemma Schedule_running_tasks_witness :
  GetApplicationState
    (Schedule Samples.clusterID (λ _, None)
       (λ t, (setAllocated t "n1", [], None))
       (AddTask (Samples.appIn Running) Samples.task_t1)).1 = Running.
Proof.
  apply (Schedule_running_tasks Samples.clusterID (λ _, None)
           (λ t, (setAllocated t "n1", [], None))
           (AddTask (Samples.appIn Running) Samples.task_t1)).
  reflexivity.
Defined.

(** ** Refused submissions and terminal states *)

Lemma deliver_other_applications ClusterID queue ctx appID :
  Forall (λ ev, GetApplicationID_ev ev ≠ appID) queue →
  GetApplication (deliver ClusterID ctx queue).1 appID = GetApplication ctx appID.
Proof.
  revert ctx. induction queue as [| event rest IH]; intros ctx Hall;
    [reflexivity |].
  apply Forall_cons in Hall as [Hne Hall]. simpl.
  pose proof (handler_other_application ClusterID ctx event appID Hne) as Hstep.
  destruct (ApplicationEventHandler ClusterID ctx event) as [ctx1 effs1].
  specialize (IH ctx1 Hall).
  destruct (deliver ClusterID ctx1 rest) as [ctx2 effs2]. simpl in *.
  congruence.
Qed.

(** X5: when the scheduler core refuses the submission of a New
    application, the application is Submitted, the callback has sent the
    request and dispatched FailApplication, and once that event is delivered
    (events of other applications may come before it) the application is
    Failed. *)
Theorem refused_submission_fails ClusterID (ctx : Context) (appID : string)
    (app : Application) :
  GetApplication ctx appID = Some app →
  builtByNewApplication app →
  applicationID app = appID →
  GetApplicationState app = New →
  is_Some (Update (schedulerAPI app) (newApplicationsRequest ClusterID app)) →
  let r := ApplicationEventHandler ClusterID ctx
             (NewSubmitApplicationEvent appID) in
  GetApplicationState <$> GetApplication r.1 appID = Some Submitted ∧
  r.2 = [SchedulerUpdate (newApplicationsRequest ClusterID app);
         Dispatch (NewFailApplicationEvent appID)] ∧
  ∀ pending : list ApplicationEvent,
    Forall (λ ev, GetApplicationID_ev ev ≠ appID) pending →
    GetApplicationState <$>
      GetApplication
        (deliver ClusterID r.1 (pending ++ [NewFailApplicationEvent appID])).1
        appID = Some Failed.
Proof.
  intros Hget Hb Hid Hst [e He] r. subst r.
  rewrite (handler_this_application ClusterID ctx
             (NewSubmitApplicationEvent appID) app Hget Hb).
  simpl. rewrite Hst. rewrite bool_decide_eq_true_2 by by_decide.
  unfold fsm.runCallback. simpl. unfold handleSubmitApplicationEvent.
  rewrite He, Hid. split; [| split; [reflexivity |]].
  - unfold GetApplication. simpl. rewrite lookup_insert_eq. reflexivity.
  - intros pending Hall. rewrite deliver_app. simpl.
    match goal with
    | |- context [deliver _ ?c pending] =>
        pose proof (deliver_other_applications ClusterID pending c appID Hall)
          as Hsame;
        destruct (deliver ClusterID c pending) as [ctx1 effs1]
    end.
    simpl in *. unfold GetApplication in Hsame at 2. simpl in Hsame.
    rewrite lookup_insert_eq in Hsame.
    rewrite (handler_this_application ClusterID ctx1
               (NewFailApplicationEvent appID) _ Hsame) by reflexivity.
    simpl. unfold GetApplication. simpl. rewrite lookup_insert_eq. reflexivity.
Qed.

Lemma refused_submission_fails_witness :
  GetApplicationState <$>
    GetApplication
      (ApplicationEventHandler Samples.clusterID Samples2.refusedContext
         (NewSubmitApplicationEvent "app-05")).1 "app-05" = Some Submitted.
Proof.
  apply (refused_submission_fails Samples.clusterID Samples2.refusedContext
           "app-05" (Samples2.refusedApp New)); try reflexivity.
  by_decide.
Defined.

(** X6: when the scheduler core refuses the request sent on recovery, the
    application is Recovering and the callback has dispatched
    FailApplication; that event cannot be handled in state Recovering, so
    its delivery changes nothing and the application stays Recovering. *)
Theorem refused_recovery_stays_recovering ClusterID (ctx : Context)
    (appID : string) (app : Application) :
  GetApplication ctx appID = Some app →
  builtByNewApplication app →
  applicationID app = appID →
  GetApplicationState app = New →
  is_Some (Update (schedulerAPI app) (newApplicationsRequest ClusterID app)) →
  let r := ApplicationEventHandler ClusterID ctx
             (NewSimpleApplicationEvent appID RecoverApplication) in
  GetApplicationState <$> GetApplication r.1 appID = Some Recovering ∧
  r.2 = [SchedulerUpdate (newApplicationsRequest ClusterID app);
         Dispatch (NewFailApplicationEvent appID)] ∧
  ApplicationEventHandler ClusterID r.1 (NewFailApplicationEvent appID)
    = (r.1, []).
Proof.
  intros Hget Hb Hid Hst [e He] r. subst r.
  rewrite (handler_this_application ClusterID ctx
             (NewSimpleApplicationEvent appID RecoverApplication) app Hget Hb).
  simpl. rewrite Hst. rewrite bool_decide_eq_true_2 by by_decide.
  unfold fsm.runCallback. simpl. unfold handleRecoverApplicationEvent.
  rewrite He, Hid. split; [| split; [reflexivity |]].
  - unfold GetApplication. simpl. rewrite lookup_insert_eq. reflexivity.
  - erewrite handler_this_application.
    2:{ unfold GetApplication. simpl. apply lookup_insert_eq. }
    2:{ reflexivity. }
    reflexivity.
Qed.

Lemma refused_recovery_stays_recovering_witness :
  GetApplicationState <$>
    GetApplication
      (ApplicationEventHandler Samples.clusterID Samples2.refusedContext
         (NewSimpleApplicationEvent "app-05" RecoverApplication)).1 "app-05"
    = Some Recovering.
Proof.
  apply (refused_recovery_stays_recovering Samples.clusterID
           Samples2.refusedContext "app-05" (Samples2.refusedApp New));
    try reflexivity.
  by_decide.
Defined.

Lemma terminal_step ClusterID ctx event appID app :
  GetApplication ctx appID = Some app →
  builtByNewApplication app →
  terminal (GetApplicationState app) →
  GetApplication (ApplicationEventHandler ClusterID ctx event).1 appID = Some app.
Proof.
  intros Hget Hb Hterm.
  destruct (decide (GetApplicationID_ev event = appID)) as [<- | Hne].
  - rewrite (handler_this_application _ _ _ _ Hget Hb).
    rewrite bool_decide_eq_false_2; [exact Hget |].
    destruct Hterm as [-> | [-> | ->]]; destruct (GetEvent event); by_decide.
  - rewrite handler_other_application by exact Hne. exact Hget.
Qed.

(** X7: Completed, Killed and Failed are terminal: whatever application
    events are delivered, an application registered in one of these states
    stays exactly as it is. *)
Theorem terminal_states_absorb ClusterID (queue : list ApplicationEvent)
    (ctx : Context) (appID : string) (app : Application) :
  GetApplication ctx appID = Some app →
  builtByNewApplication app →
  terminal (GetApplicationState app) →
  GetApplication (deliver ClusterID ctx queue).1 appID = Some app.
Proof.
  revert ctx. induction queue as [| event rest IH]; intros ctx Hget Hb Hterm;
    [exact Hget |].
  simpl.
  pose proof (terminal_step ClusterID ctx event appID app Hget Hb Hterm) as Hs.
  destruct (ApplicationEventHandler ClusterID ctx event) as [ctx1 effs1].
  specialize (IH ctx1 Hs Hb Hterm).
  destruct (deliver ClusterID ctx1 rest) as [ctx2 effs2]. exact IH.
Qed.

Lemma terminal_states_absorb_witness :
  GetApplication
    (deliver Samples.clusterID
       (set_applications Samples.emptyContext
          {[ "app-02" := Samples.appIn Completed ]})
       [NewFailApplicationEvent "app-02";
        NewSimpleApplicationEvent "app-02" RunApplication]).1 "app-02"
  = Some (Samples.appIn Completed).
Proof.
  apply terminal_states_absorb; [reflexivity | reflexivity |].
  left. reflexivity.
Defined.

(** ** The application registry *)

Lemma handler_entry ClusterID ctx event appID :
  GetApplication (ApplicationEventHandler ClusterID ctx event).1 appID =
    match GetApplication ctx appID with
    | Some app =>
        Some (set_sm app
                (sm (default app
                       (GetApplication
                          (ApplicationEventHandler ClusterID ctx event).1 appID))))
    | None => None
    end.
Proof.
  destruct (decide (GetApplicationID_ev event = appID)) as [<- | Hne].
  - unfold ApplicationEventHandler.
    destruct (GetApplication ctx (GetApplicationID_ev event)) as [app |] eqn:Hget.
    + destruct (canHandle app event).
      * pose proof (handle_only_sets_sm ClusterID app event) as Hset.
        destruct (handle ClusterID app event) as [[app' effs] res].
        simpl in *. unfold GetApplication. simpl. rewrite lookup_insert_eq.
        simpl. rewrite Hset at 1. reflexivity.
      * simpl. rewrite Hget. simpl. by rewrite set_sm_same.
    + simpl. rewrite Hget. reflexivity.
  - rewrite handler_other_application by exact Hne.
    destruct (GetApplication ctx appID) as [app |]; [| reflexivity].
    simpl. by rewrite set_sm_same.
Qed.

Lemma handler_frame ClusterID ctx event :
  schedulerCache (ApplicationEventHandler ClusterID ctx event).1
    = schedulerCache ctx ∧
  nodes (ApplicationEventHandler ClusterID ctx event).1 = nodes ctx.
Proof.
  unfold ApplicationEventHandler.
  destruct (GetApplication ctx (GetApplicationID_ev event)) as [app |]; [| done].
  destruct (canHandle app event); [| done].
  destruct (handle ClusterID app event) as [[app' effs] res]. done.
Qed.

Lemma set_sm_set_sm app f g : set_sm (set_sm app f) g = set_sm app g.
Proof. reflexivity. Qed.

(** X8: delivering application events never adds or removes a registry
    entry and changes nothing of an entry but the state of its machine: its
    id, queue, user, tags, tasks and completion handler are as before; the
    scheduler cache and the node registry are not touched either. *)
Theorem deliver_keeps_registry ClusterID (queue : list ApplicationEvent)
    (ctx : Context) :
  let ctx' := (deliver ClusterID ctx queue).1 in
  (∀ appID,
     match GetApplication ctx appID with
     | Some app => ∃ f, GetApplication ctx' appID = Some (set_sm app f)
     | None => GetApplication ctx' appID = None
     end) ∧
  schedulerCache ctx' = schedulerCache ctx ∧
  nodes ctx' = nodes ctx.
Proof.
  revert ctx. induction queue as [| event rest IH]; intros ctx; simpl.
  - split; [| done]. intros appID.
    destruct (GetApplication ctx appID) as [app |]; [| done].
    exists (sm app). by rewrite set_sm_same.
  - pose proof (handler_entry ClusterID ctx event) as Hentry.
    pose proof (handler_frame ClusterID ctx event) as [Hcache Hnodes].
    destruct (ApplicationEventHandler ClusterID ctx event) as [ctx1 effs1].
    specialize (IH ctx1). simpl in IH.
    destruct (deliver ClusterID ctx1 rest) as [ctx2 effs2]. simpl in *.
    destruct IH as (IHapps & IHcache & IHnodes).
    split; [| split; congruence].
    intros appID. specialize (IHapps appID). specialize (Hentry appID).
    rewrite Hentry in IHapps.
    destruct (GetApplication ctx appID) as [app |]; [| exact IHapps].
    destruct IHapps as [f Hf]. exists f. exact Hf.
Qed.

Lemma keyedById_insert (ctx : Context) (appID : string) (app : Application) :
  keyedById ctx → applicationID app = appID →
  keyedById (set_applications ctx (<[appID := app]> (applications ctx))).
Proof.
  intros Hk Hid id a. unfold GetApplication. simpl.
  destruct (decide (appID = id)) as [<- | Hne].
  - rewrite lookup_insert_eq. congruence.
  - rewrite lookup_insert_ne by exact Hne. apply Hk.
Qed.

Lemma keyedById_handler ClusterID ctx event :
  keyedById ctx → keyedById (ApplicationEventHandler ClusterID ctx event).1.
Proof.
  intros Hk id a. rewrite handler_entry.
  destruct (GetApplication ctx id) as [app |] eqn:Hget; [| discriminate].
  intros [= <-]. simpl. exact (Hk id app Hget).
Qed.

(** X9: every application is registered under its own id, and
    [AddApplication], [UpdateApplication], [Context.AddTask] and the
    delivery of application events keep it so. *)
Theorem registry_keyed_by_id (ctx : Context) :
  keyedById ctx →
  (∀ request, keyedById (AddApplication ctx request).1.1) ∧
  (∀ app, keyedById (UpdateApplication ctx app)) ∧
  (∀ request, keyedById (Context_AddTask ctx request)) ∧
  (∀ ClusterID queue, keyedById (deliver ClusterID ctx queue).1).
Proof.
  intros Hk. split; [| split; [| split]].
  - intros request. unfold AddApplication. simpl.
    by apply keyedById_insert.
  - intros app. unfold UpdateApplication. by apply keyedById_insert.
  - intros request. unfold Context_AddTask.
    destruct (GetApplication ctx (treq_ApplicationID request)) as [app |] eqn:Hget;
      [| exact Hk].
    destruct (GetTask app (treq_TaskID request)); [exact Hk |].
    apply keyedById_insert; [exact Hk |].
    unfold AddTask. destruct (taskMap app !! _); simpl; exact (Hk _ _ Hget).
  - intros ClusterID queue. revert ctx Hk.
    induction queue as [| event rest IH]; intros ctx Hk; [exact Hk |].
    simpl. pose proof (keyedById_handler ClusterID ctx event Hk) as Hk1.
    destruct (ApplicationEventHandler ClusterID ctx event) as [ctx1 effs1].
    specialize (IH ctx1 Hk1).
    destruct (deliver ClusterID ctx1 rest) as [ctx2 effs2]. exact IH.
Qed.

Lemma registry_keyed_by_id_witness :
  keyedById (AddApplication Samples.emptyContext Samples.addApp02).1.1.
Proof.
  apply (registry_keyed_by_id Samples.emptyContext).
  intros appID app Hget. unfold GetApplication in Hget. simpl in Hget.
  rewrite lookup_empty in Hget. discriminate Hget.
Defined.

Lemma filter_none {A} (P : A → Prop) `{∀ x, Decision (P x)} (l : list A) :
  Forall (λ x, ¬ P x) l → filter P l = [].
Proof.
  induction 1 as [| x l Hx _ IH]; [reflexivity |].
  rewrite filter_cons_False by exact Hx. exact IH.
Qed.

Lemma filter_all {A} (P : A → Prop) `{∀ x, Decision (P x)} (l : list A) :
  Forall P l → filter P l = l.
Proof.
  induction 1 as [| x l Hx _ IH]; [reflexivity |].
  rewrite filter_cons_True by exact Hx. by rewrite IH.
Qed.

(** X10: [SelectApplications] returns exactly the registered applications
    the filter keeps, all of them when the filter is nil; with the registry
    keyed by id, selecting by application id returns the one application
    registered under it, or nothing. *)
Theorem SelectApplications_exact (ctx : Context)
    (flt : option (Application → bool)) :
  (∀ app, app ∈ SelectApplications ctx flt ↔
          (∃ appID, GetApplication ctx appID = Some app) ∧ selected flt app) ∧
  length (SelectApplications ctx None) = size (applications ctx) ∧
  (keyedById ctx →
   ∀ appID,
     SelectApplications ctx
       (Some (λ app, bool_decide (GetApplicationID app = appID)))
     = match GetApplication ctx appID with
       | Some app => [app]
       | None => []
       end).
Proof.
  split; [| split].
  - intros app. unfold SelectApplications.
    rewrite list_elem_of_filter, list_elem_of_fmap. split.
    + intros [Hsel ([id a] & -> & Hin)]. apply elem_of_map_to_list in Hin.
      split; [exists id; exact Hin | exact Hsel].
    + intros [[id Hget] Hsel]. split; [exact Hsel |].
      exists (id, app). split; [reflexivity |].
      apply elem_of_map_to_list. exact Hget.
  - unfold SelectApplications.
    rewrite filter_all by (apply Forall_forall; intros; exact I).
    rewrite length_fmap. apply length_map_to_list.
  - intros Hk appID. unfold SelectApplications, GetApplication.
    set (P := selected (Some (λ app, bool_decide (GetApplicationID app = appID)))).
    assert (Hrest : ∀ m : gmap string Application,
              (∀ id a, m !! id = Some a → applicationID a = id) →
              m !! appID = None → filter P (map_to_list m).*2 = []).
    { intros m Hm Hnone. apply filter_none. apply Forall_forall.
      intros a Hin HP. apply list_elem_of_fmap in Hin as ([id a'] & -> & Hin).
      apply elem_of_map_to_list in Hin. simpl in *.
      unfold P, selected in HP. apply bool_decide_eq_true in HP.
      unfold GetApplicationID in HP. rewrite (Hm _ _ Hin) in HP. congruence. }
    destruct (applications ctx !! appID) as [app |] eqn:Hget.
    + apply Permutation_singleton_r.
      rewrite <- (insert_delete_id (applications ctx) appID app Hget).
      rewrite map_to_list_insert by apply lookup_delete_eq.
      rewrite fmap_cons. simpl. rewrite filter_cons_True.
      2:{ unfold P, selected. apply bool_decide_eq_true.
          exact (Hk appID app Hget). }
      rewrite Hrest; [reflexivity | | apply lookup_delete_eq].
      intros id a Hin. apply lookup_delete_Some in Hin as [_ Hin].
      exact (Hk id a Hin).
    + apply Hrest; [exact Hk | exact Hget].
Qed.

Lemma SelectApplications_exact_witness :
  SelectApplications Samples.submitted
    (Some (λ app, bool_decide (GetApplicationID app = "app-02")))
  = [Samples.appIn Submitted].
Proof.
  apply (SelectApplications_exact Samples.submitted None).
  intros appID app Hget. unfold GetApplication in Hget. simpl in Hget.
  apply lookup_singleton_Some in Hget as [<- <-]. reflexivity.
Defined.

(** ** The lock of the context *)

(** X11: [NotifyApplicationComplete] never returns and so never dispatches
    CompleteApplication: it calls [GetApplication], which takes the read
    lock, while it holds the write lock of the same mutex.  The other
    methods, entered with the mutex free, return with the mutex free and
    the result of their body. *)
Theorem NotifyApplicationComplete_blocks (ctx : Context) :
  (∀ l appID, locking.NotifyApplicationComplete l ctx appID = None) ∧
  (∀ appID, locking.GetApplication sync.Unlocked ctx appID
              = Some (sync.Unlocked, GetApplication ctx appID)) ∧
  (∀ request, locking.AddApplication sync.Unlocked ctx request
                = Some (sync.Unlocked, AddApplication ctx request)) ∧
  (∀ app, locking.UpdateApplication sync.Unlocked ctx app
            = Some (sync.Unlocked, UpdateApplication ctx app)) ∧
  (∀ request, locking.AddTask sync.Unlocked ctx request
                = Some (sync.Unlocked, Context_AddTask ctx request)).
Proof.
  split; [| done]. intros l appID. destruct l; reflexivity.
Qed.

(** ** The node registry *)

(** X12: [addAndReportNode] registers the node under its name unless the
    name is taken, in which case the registry is left as it is; other names
    are not touched, and adding the same name again changes nothing.  It
    dispatches RecoverNode exactly when it is asked to report and the
    registered entry is in state New. *)
Theorem addAndReportNode_first_wins
    (newSchedulerNode :
       string → string → common.Resource → SchedulerAPI → bool → SchedulerNode)
    (nc : schedulerNodes) (node : Node) (reportNode : bool) :
  let add := addAndReportNode newSchedulerNode in
  let r := add nc node reportNode in
  (∀ old, getNode nc (node_Name node) = Some old → r.1 = nc) ∧
  (∃ entry, getNode r.1 (node_Name node) = Some entry ∧
     r.2 = if reportNode && bool_decide (getNodeState entry = NodeNew)
           then [DispatchNode {| NodeID := name entry; NodeEvent := RecoverNode |}]
           else []) ∧
  (∀ other, other ≠ node_Name node → getNode r.1 other = getNode nc other) ∧
  (∀ node' reportNode', node_Name node' = node_Name node →
                        (add r.1 node' reportNode').1 = r.1).
Proof.
  intros add r. subst add r. unfold addAndReportNode, getNode.
  destruct (nodesMap nc !! node_Name node) as [old |] eqn:Hold; simpl.
  - split; [done |]. split; [| split].
    + exists old. rewrite Hold. split; [reflexivity |].
      destruct reportNode; [| reflexivity]. simpl.
      destruct (decide _) as [Hs | Hs];
        [by rewrite bool_decide_eq_true_2 | by rewrite bool_decide_eq_false_2].
    + done.
    + intros node' _ ->. rewrite Hold. reflexivity.
  - split; [discriminate |]. split; [| split].
    + eexists. rewrite lookup_insert_eq. split; [reflexivity |].
      destruct reportNode; [| reflexivity]. simpl.
      destruct (decide _) as [Hs | Hs];
        [by rewrite bool_decide_eq_true_2 | by rewrite bool_decide_eq_false_2].
    + intros other Hne. apply lookup_insert_ne. congruence.
    + intros node' _ ->. rewrite lookup_insert_eq. reflexivity.
Qed.

(** X13: [deleteNode] reports the node to the scheduler core with one
    request and leaves the registry as it is: the node is still found under
    its name, and adding a node of that name again keeps the old entry. *)
Theorem deleteNode_keeps_entry
    (newSchedulerNode :
       string → string → common.Resource → SchedulerAPI → bool → SchedulerNode)
    (CreateUpdateRequestForDeleteNode : UpdateNodeInfo → UpdateRequest)
    (nc : schedulerNodes) (node : Node) (entry : SchedulerNode) :
  getNode nc (node_Name node) = Some entry →
  let r := deleteNode CreateUpdateRequestForDeleteNode nc node in
  r.2 = [SchedulerUpdate
           (CreateUpdateRequestForDeleteNode (common.CreateFrom node))] ∧
  getNode r.1 (node_Name node) = Some entry ∧
  ∀ node', node_Name node' = node_Name node →
    (addNode newSchedulerNode r.1 node').1 = nc ∧
    (addNode newSchedulerNode r.1 node').2 =
      if bool_decide (getNodeState entry = NodeNew)
      then [DispatchNode {| NodeID := name entry; NodeEvent := RecoverNode |}]
      else [].
Proof.
  intros Hget r. subst r. simpl. split; [reflexivity |].
  split; [exact Hget |]. intros node' Hname.
  unfold addNode, addAndReportNode, getNode in *. rewrite Hname, Hget.
  simpl. rewrite Hget. split; [reflexivity |].
  destruct (decide _) as [Hs | Hs];
    [by rewrite bool_decide_eq_true_2 | by rewrite bool_decide_eq_false_2].
Qed.

Lemma deleteNode_keeps_entry_witness :
  getNode
    (deleteNode Samples2.deleteRequest Samples2.oneNode Samples.node_n1).1 "n1"
  = Some Samples2.healthy_n1.
Proof.
  apply (deleteNode_keeps_entry Samples2.newSchedulerNode
           Samples2.deleteRequest Samples2.oneNode Samples.node_n1
           Samples2.healthy_n1).
  reflexivity.
Defined.

(** X14: the node events of [updateNode].  DrainNode is dispatched exactly
    when the node went from schedulable to unschedulable and its registered
    entry is Healthy; RestoreNode exactly when it went back and the entry is
    Draining; there is at most one node event, and none for a node that is
    not registered, whose resource change is reported to the scheduler core
    all the same. *)
Theorem updateNode_node_events ClusterID (nc : schedulerNodes)
    (oldNode newNode : Node) :
  let effs := updateNode ClusterID nc oldNode newNode in
  (∀ ev, ev ∈ nodeEvents effs ↔
     ∃ entry, getNode nc (node_Name newNode) = Some entry ∧
       NodeID ev = name entry ∧
       node_Unschedulable newNode = negb (node_Unschedulable oldNode) ∧
       ((NodeEvent ev = DrainNode ∧ node_Unschedulable newNode = true ∧
         getNodeState entry = NodeHealthy) ∨
        (NodeEvent ev = RestoreNode ∧ node_Unschedulable newNode = false ∧
         getNodeState entry = NodeDraining))) ∧
  (length (nodeEvents effs) ≤ 1)%nat ∧
  (getNode nc (node_Name newNode) = None →
   effs = if equals oldNode newNode then []
          else [SchedulerUpdate
                  (common.CreateUpdateRequestForUpdatedNode ClusterID
                     (common.CreateFrom newNode))]).
Proof.
  intros effs. subst effs. unfold updateNode, drainNode, restoreNode, getNode.
  assert (Hnone : nodeEvents
            (if equals oldNode newNode then []
             else [SchedulerUpdate
                     (common.CreateUpdateRequestForUpdatedNode ClusterID
                        (common.CreateFrom newNode))]) = [])
    by (destruct (equals oldNode newNode); reflexivity).
  unfold nodeEvents in *. rewrite omap_app, Hnone, app_nil_r.
  destruct (nodesMap nc !! node_Name newNode) as [entry |] eqn:Hentry.
  - destruct (node_Unschedulable oldNode), (node_Unschedulable newNode); simpl;
      try destruct (decide _) as [Hs | Hs]; simpl;
      (split; [| split; [lia | discriminate]]);
      intros [id kind]; simpl;
      rewrite ?list_elem_of_singleton, ?elem_of_nil;
      (split;
       [ try done; intros [= -> ->]; exists entry; naive_solver
       | intros (entry' & [= <-] & Hid & Hflip & Hcase); simpl in *;
         try discriminate Hflip;
         destruct Hcase as [(Hk & Hu & Hst) | (Hk & Hu & Hst)];
         try discriminate Hu; try contradiction; congruence ]).
  - split; [| split; [| intros _]].
    + intros ev.
      destruct (negb _ && _); [| destruct (_ && _)]; simpl;
        rewrite elem_of_nil; split; [done | | done | | done |];
        intros (entry & Hsome & _); discriminate Hsome.
    + destruct (negb _ && _); [| destruct (_ && _)]; simpl; lia.
    + destruct (negb _ && _); [| destruct (_ && _)]; reflexivity.
Qed.

(** ** The generic application management service *)

Lemma addApplicationInternal_found
    (GetApplicationIdFromPod : Pod → string + error)
    (GetQueueNameFromPod ServiceAccountName : Pod → string)
    (ctx : Context) (pod : Pod) (recovery : bool) (appId : string)
    (app : Application) :
  GetApplicationIdFromPod pod = inl appId →
  GetApplication ctx appId = Some app →
  is_Some (taskMap app !! pod_UID pod) →
  general.addApplicationInternal GetApplicationIdFromPod GetQueueNameFromPod
    ServiceAccountName ctx pod recovery = (ctx, [], Some app, false).
Proof.
  intros Hid Hget [t Ht]. unfold general.addApplicationInternal.
  rewrite Hid, Hget. unfold GetTask. rewrite Ht, Hget. reflexivity.
Qed.

Lemma addTask_for_pod (ctx : Context) (pod : Pod) (recovery : bool)
    (appId : string) (app : Application) :
  GetApplication ctx appId = Some app →
  applicationID app = appId →
  let ctx1 := match GetTask app (pod_UID pod) with
              | inr _ =>
                  Context_AddTask ctx
                    {| treq_ApplicationID := GetApplicationID app;
                       treq_TaskID := pod_UID pod; treq_Pod := pod;
                       treq_Recovery := recovery |}
              | inl _ => ctx
              end in
  ∃ app1, GetApplication ctx1 appId = Some app1 ∧
          is_Some (taskMap app1 !! pod_UID pod) ∧
          ∀ other, other ≠ appId →
                   GetApplication ctx1 other = GetApplication ctx other.
Proof.
  intros Hget Happ. unfold GetTask, Context_AddTask, GetApplicationID.
  simpl. rewrite Happ.
  destruct (taskMap app !! pod_UID pod) as [t |] eqn:Ht; simpl.
  - exists app. eauto.
  - rewrite Hget. unfold GetTask. rewrite Ht. unfold GetApplication. simpl.
    eexists. rewrite lookup_insert_eq. split; [reflexivity |]. split.
    + unfold AddTask. destruct recovery; simpl; rewrite Ht; simpl;
        rewrite lookup_insert_eq; eauto.
    + intros other Hne. apply lookup_insert_ne. congruence.
Qed.

(** X15: [addApplicationInternal] is idempotent.  Called again for the same
    pod, it finds the application and the task, changes nothing, dispatches
    nothing and reports that it added no application.  After the first call
    for a pod that carries an application id, the application is registered
    and holds a task under the pod's UID; the call reports an added
    application exactly when none was registered under that id, and other
    registry entries are as before. *)
Theorem addApplicationInternal_idempotent
    (GetApplicationIdFromPod : Pod → string + error)
    (GetQueueNameFromPod ServiceAccountName : Pod → string)
    (ctx : Context) (pod : Pod) (recovery recovery' : bool) :
  keyedById ctx →
  let add := general.addApplicationInternal GetApplicationIdFromPod
               GetQueueNameFromPod ServiceAccountName in
  let r1 := add ctx pod recovery in
  let ctx1 := r1.1.1.1 in
  add ctx1 pod recovery' = (ctx1, [], r1.1.2, false) ∧
  ∀ appId, GetApplicationIdFromPod pod = inl appId →
    (∃ task, getTask ctx1 appId (pod_UID pod) = inl task) ∧
    r1.2 = bool_decide (GetApplication ctx appId = None) ∧
    (∀ other, other ≠ appId →
              GetApplication ctx1 other = GetApplication ctx other).
Proof.
  intros Hk add r1 ctx1.
  destruct (GetApplicationIdFromPod pod) as [appId | e] eqn:Hid.
  2:{ subst add r1 ctx1. unfold general.addApplicationInternal.
      rewrite Hid. simpl. split; [reflexivity | discriminate]. }
  assert (∃ app1, GetApplication ctx1 appId = Some app1 ∧
                  is_Some (taskMap app1 !! pod_UID pod) ∧
                  r1.1.2 = Some app1 ∧
                  r1.2 = bool_decide (GetApplication ctx appId = None) ∧
                  ∀ other, other ≠ appId →
                           GetApplication ctx1 other = GetApplication ctx other)
    as (app1 & Hget1 & Htask & Hret & Hadded & Hother).
  { subst add r1 ctx1. unfold general.addApplicationInternal. rewrite Hid.
    destruct (GetApplication ctx appId) as [app |] eqn:Hget.
    - destruct (addTask_for_pod ctx pod recovery appId app Hget (Hk _ _ Hget))
        as (app1 & Hget1 & Htask & Hother).
      simpl in *. exists app1. rewrite Hget1.
      split; [reflexivity |]. split; [exact Htask |].
      split; [reflexivity |]. split; [| exact Hother].
      first [reflexivity | by rewrite bool_decide_eq_false_2].
    - unfold AddApplication. simpl.
      set (app := NewApplication appId (GetQueueNameFromPod pod)
                    (ServiceAccountName pod) (general.namespaceTags pod)
                    (SchedulerAPI_of (apiProvider ctx))).
      set (c := set_applications ctx (<[appId := app]> (applications ctx))).
      assert (GetApplication c appId = Some app) as Hc
        by (unfold GetApplication; simpl; apply lookup_insert_eq).
      destruct (addTask_for_pod c pod recovery appId app Hc eq_refl)
        as (app1 & Hget1 & Htask & Hother).
      simpl in *. exists app1. rewrite Hget1.
      split; [reflexivity |]. split; [exact Htask |].
      split; [reflexivity |].
      split; [first [reflexivity | by rewrite bool_decide_eq_true_2] |].
      intros other Hne. rewrite Hother by exact Hne.
      unfold GetApplication. simpl. apply lookup_insert_ne. congruence. }
  split.
  - subst add. rewrite Hret.
    apply (addApplicationInternal_found _ _ _ _ _ _ appId app1);
      [exact Hid | exact Hget1 | exact Htask].
  - intros ? [= <-]. split; [| split; [exact Hadded | exact Hother]].
    unfold getTask. unfold GetApplication in Hget1. rewrite Hget1.
    unfold GetTask. destruct Htask as [t ->]. eauto.
Qed.

Lemma addApplicationInternal_idempotent_witness :
  general.addApplicationInternal Samples2.appIdOf (λ _, "root.default")
    (λ _, "alice")
    (general.addApplicationInternal Samples2.appIdOf (λ _, "root.default")
       (λ _, "alice") Samples.emptyContext Samples2.pod_t9 false).1.1.1
    Samples2.pod_t9 false
  = ((general.addApplicationInternal Samples2.appIdOf (λ _, "root.default")
        (λ _, "alice") Samples.emptyContext Samples2.pod_t9 false).1.1.1,
     [],
     (general.addApplicationInternal Samples2.appIdOf (λ _, "root.default")
        (λ _, "alice") Samples.emptyContext Samples2.pod_t9 false).1.2,
     false).
Proof.
  apply (addApplicationInternal_idempotent Samples2.appIdOf
           (λ _, "root.default") (λ _, "alice") Samples.emptyContext
           Samples2.pod_t9 false false).
  intros appID app Hget. unfold GetApplication in Hget. simpl in Hget.
  rewrite lookup_empty in Hget. discriminate Hget.
Defined.

(** ** The watch loop *)

(** X16: the watch loop stops at the first item that is the success of the
    driver or is not a pod, and reads nothing after it: on the success it
    dispatches CompleteApplication once, whatever follows; on an item that
    is not a pod it panics and dispatches nothing, even when the success of
    the driver follows. *)
Theorem watchLoop_stops_at_first (appID : string) (pod : Pod)
    (pre post : list WatchObject) :
  Forall (otherPodUpdate pod) pre →
  watchLoop appID pod (pre ++ OtherObject :: post) = (Panicked, []) ∧
  ∀ resp, driverSucceeded pod resp →
    watchLoop appID pod (pre ++ PodObject resp :: post) =
      (DriverSucceeded,
       [Dispatch (NewSimpleApplicationEvent appID CompleteApplication)]).
Proof.
  induction 1 as [| o pre (r & -> & Hr) _ IH]; simpl.
  - split; [reflexivity |]. intros resp Hs.
    by rewrite bool_decide_eq_true_2.
  - rewrite bool_decide_eq_false_2 by exact Hr. exact IH.
Qed.

Lemma watchLoop_stops_at_first_witness :
  watchLoop "app-02" Samples.driver
    ([PodObject Samples.driver] ++
     OtherObject :: [PodObject Samples.driver_done]) = (Panicked, []).
Proof.
  apply (watchLoop_stops_at_first "app-02" Samples.driver
           [PodObject Samples.driver] [PodObject Samples.driver_done]).
  constructor; [| constructor].
  exists Samples.driver. split; [reflexivity |]. intros [Hphase _].
  discriminate Hphase.
Defined.

(** X17: recovering a pod whose application is not registered yet.  The
    service registers the application, dispatches RecoverApplication for it
    and adds the pod as a task that is already allocated on the pod's node.
    When the dispatched event is delivered, the application is Recovering
    and one request has gone to the scheduler core, naming the application,
    the queue and the service account of the pod, the default partition and
    the pod's namespace as tag. *)
Theorem RecoverApplication_of_new_pod ClusterID
    (GetApplicationIdFromPod : Pod → string + error)
    (GetQueueNameFromPod ServiceAccountName : Pod → string)
    (ctx : Context) (pod : Pod) (appId : string) :
  GetApplicationIdFromPod pod = inl appId →
  GetApplication ctx appId = None →
  let r := general.RecoverApplication GetApplicationIdFromPod
             GetQueueNameFromPod ServiceAccountName ctx pod in
  let ctx1 := r.1.1.1 in
  let recover := NewSimpleApplicationEvent appId RecoverApplication in
  let d := ApplicationEventHandler ClusterID ctx1 recover in
  r.2 = true ∧
  r.1.1.2 = [Dispatch recover] ∧
  getTask ctx1 appId (pod_UID pod) =
    inl (setAllocated (NewTask (pod_UID pod) appId pod) (pod_NodeName pod)) ∧
  GetApplicationState <$> GetApplication d.1 appId = Some Recovering ∧
  updatesSent d.2 =
    [SchedulerUpdate
       {| NewApplications :=
            [ {| si_ApplicationID := appId;
                 si_QueueName := GetQueueNameFromPod pod;
                 si_PartitionName := "default";
                 si_User := ServiceAccountName pod;
                 si_Tags := general.namespaceTags pod |} ];
          UpdatedNodes := [];
          RmID := ClusterID |}].
Proof.
  intros Hid Hnone r ctx1 recover d.
  set (app0 := NewApplication appId (GetQueueNameFromPod pod)
                 (ServiceAccountName pod) (general.namespaceTags pod)
                 (SchedulerAPI_of (apiProvider ctx))).
  set (task := setAllocated (NewTask (pod_UID pod) appId pod) (pod_NodeName pod)).
  set (app1 := set_taskMap app0 {[ pod_UID pod := task ]}).
  assert (r = (set_applications ctx (<[appId := app1]> (applications ctx)),
               [Dispatch recover], Some app1, true)) as Hr.
  { subst r. unfold general.RecoverApplication, general.addApplicationInternal.
    rewrite Hid, Hnone. unfold AddApplication. cbv zeta. cbv beta iota.
    fold app0. unfold GetTask at 1. cbn [taskMap app0 NewApplication].
    rewrite lookup_empty. unfold Context_AddTask.
    cbn [treq_ApplicationID treq_TaskID treq_Pod treq_Recovery GetApplicationID
         applicationID app0 NewApplication].
    unfold GetApplication. cbn [applications set_applications].
    rewrite lookup_insert_eq. unfold GetTask. cbn [taskMap app0 NewApplication].
    rewrite lookup_empty. cbn [applicationID app0 NewApplication].
    rewrite insert_insert_eq. cbn [applications set_applications].
    rewrite lookup_insert_eq.
    unfold AddTask. cbn [taskID setAllocated NewTask taskMap app0 NewApplication].
    rewrite lookup_empty. rewrite insert_empty. reflexivity. }
  subst ctx1 d. rewrite Hr. cbn [fst snd].
  split; [reflexivity |]. split; [reflexivity |]. split.
  - unfold getTask. cbn [applications set_applications].
    rewrite lookup_insert_eq. unfold GetTask. cbn [taskMap app1 set_taskMap].
    rewrite lookup_singleton_eq. reflexivity.
  - erewrite handler_this_application.
    2:{ unfold GetApplication. cbn [applications set_applications].
        apply lookup_insert_eq. }
    2:{ reflexivity. }
    cbn [GetEvent recover NewSimpleApplicationEvent GetApplicationID_ev].
    rewrite bool_decide_eq_true_2 by by_decide. cbn [fst snd]. split.
    + unfold GetApplication. cbn [applications set_applications].
      rewrite lookup_insert_eq. reflexivity.
    + unfold fsm.runCallback. cbn [applicationCallbacks default].
      unfold handleRecoverApplicationEvent. cbv zeta. unfold updatesSent, id.
      rewrite filter_cons_True by reflexivity.
      rewrite filter_none; [reflexivity |].
      destruct (Update _ _); repeat constructor. simpl. discriminate.
Qed.

Lemma RecoverApplication_of_new_pod_witness :
  (general.RecoverApplication Samples2.appIdOf (λ _, "root.default")
     (λ _, "alice") Samples.emptyContext Samples2.pod_t9).2 = true.
Proof.
  apply (RecoverApplication_of_new_pod Samples.clusterID Samples2.appIdOf
           (λ _, "root.default") (λ _, "alice") Samples.emptyContext
           Samples2.pod_t9 "app-09"); reflexivity.
Defined.
